(** * Shallow embedding of My_CPP_STL: SharedPtr (src/shared_ptr/main.cpp)
    and UniquePtr (src/unique_ptr/main.cpp).

    The heap relevant to the handles is modelled explicitly:
    - a resource pointer [T*] is an [option res] ([None] is [nullptr]);
    - a counter cell [std::atomic<int>*] is an [option loc] into a store
      [cells : gmap loc Z] of the live counter cells ([new] picks an
      address that is not live, [delete] removes it);
    - a cleanup routine [std::function] object is an identifier [deleter];
      calling it appends the pair (routine, argument) to an event log;
    - the handle objects themselves live in [slots : gmap nat handle],
      keyed by their address ([this]); destruction removes the object.
    The counter is an [int]: [fetch_add] and [fetch_sub] on
    [std::atomic<int>] wrap around in two's complement ([wrap32]), and the
    test [fetch_sub(1) == 1] compares the value held before the subtraction.
    Every operation runs in the option monad: [None] is undefined behaviour
    (touching a freed counter cell, or using an object that does not exist). *)

From Stdlib Require Import ZArith Lia Sorting.Permutation.
From stdpp Require Import base gmap list fin_maps.

Open Scope Z_scope.

Definition res := nat.
Definition loc := nat.
Definition deleter := nat.

(** [defaultDeleter]: [delete ptr]. *)
Definition defaultDeleter : deleter := 0%nat.

(** Cleanup invocations, in order: which routine, on which pointer. *)
Definition event := (deleter * option res)%type.

(** The range of a 32-bit [int]. *)
Definition int_min : Z := - 2 ^ 31.
Definition int_max : Z := 2 ^ 31 - 1.

(** Two's complement wrap-around of a 32-bit signed integer: the result of
    atomic [fetch_add] / [fetch_sub] on [std::atomic<int>]. *)
Definition wrap32 (x : Z) : Z := (x + 2 ^ 31) mod 2 ^ 32 - 2 ^ 31.

Module Shared.

(** The fields of [SharedPtr<T>]: [ptr_], [count_], [deleter_]. *)
Record handle := mkHandle {
  ptr_ : option res;
  count_ : option loc;
  deleter_ : deleter
}.

Record St := mkSt {
  cells : gmap loc Z;
  slots : gmap nat handle;
  log : list event
}.

Definition set_cells (cs : gmap loc Z) (st : St) : St :=
  mkSt cs (slots st) (log st).
Definition set_slots (ss : gmap nat handle) (st : St) : St :=
  mkSt (cells st) ss (log st).

(** [new std::atomic<int>(1)]: an address that is not a live cell. *)
Definition new_cell (st : St) : loc := fresh (dom (cells st)).

(** [release()]:
    [if (count_ && count_->fetch_sub(1) == 1) { deleter_(ptr_); delete count_; }]
    The handle's own fields are left as they are. *)
Definition release (h : handle) (st : St) : option St :=
  match count_ h with
  | None => Some st
  | Some c =>
      v ← cells st !! c;
      let cs := <[c := wrap32 (v - 1)]> (cells st) in
      if Z.eqb v 1
      then Some (mkSt (delete c cs) (slots st) (log st ++ [(deleter_ h, ptr_ h)]))
      else Some (set_cells cs st)
  end.

(** [acquire(other)]: copy the three fields, then [count_->fetch_add(1)]
    if [count_] is not null.  Returns the new fields and the new state. *)
Definition acquire (other : handle) (st : St) : option St :=
  match count_ other with
  | None => Some st
  | Some c =>
      v ← cells st !! c;
      Some (set_cells (<[c := wrap32 (v + 1)]> (cells st)) st)
  end.

(** Constructing an object at address [k]: the storage must not hold a
    live object. *)
Definition fresh_slot (k : nat) (st : St) : option unit :=
  match slots st !! k with None => Some tt | Some _ => None end.

(** [SharedPtr()]: [ptr_(nullptr), count_(nullptr), deleter_(defaultDeleter)]. *)
Definition ctor_empty (k : nat) (st : St) : option St :=
  _ ← fresh_slot k st;
  Some (set_slots (<[k := mkHandle None None defaultDeleter]> (slots st)) st).

(** [SharedPtr(T *ptr, deleter)]: [count_(new std::atomic<int>(1))]. *)
Definition ctor_bind (k : nat) (p : option res) (d : deleter) (st : St) : option St :=
  _ ← fresh_slot k st;
  let c := new_cell st in
  Some (mkSt (<[c := 1]> (cells st)) (<[k := mkHandle p (Some c) d]> (slots st)) (log st)).

(** [SharedPtr(const SharedPtr &other)]: [acquire(other)]. *)
Definition ctor_copy (k j : nat) (st : St) : option St :=
  _ ← fresh_slot k st;
  o ← slots st !! j;
  st1 ← acquire o st;
  Some (set_slots (<[k := o]> (slots st1)) st1).

(** [operator=(const SharedPtr &other)]:
    [if (this != &other) { release(); acquire(other); }] *)
Definition assign (k j : nat) (st : St) : option St :=
  h ← slots st !! k;
  o ← slots st !! j;
  if Nat.eqb k j then Some st
  else
    st1 ← release h st;
    st2 ← acquire o st1;
    Some (set_slots (<[k := o]> (slots st2)) st2).

(** [reset(T *ptr = nullptr, deleter = defaultDeleter)]:
    [release(); ptr_ = ptr; count_ = new std::atomic<int>(1); deleter_ = deleter;] *)
Definition reset (k : nat) (p : option res) (d : deleter) (st : St) : option St :=
  h ← slots st !! k;
  st1 ← release h st;
  let c := new_cell st1 in
  Some (mkSt (<[c := 1]> (cells st1)) (<[k := mkHandle p (Some c) d]> (slots st1)) (log st1)).

(** [swap(SharedPtr &other)]: [std::swap] of the three fields. *)
Definition swap (k j : nat) (st : St) : option St :=
  h ← slots st !! k;
  o ← slots st !! j;
  Some (set_slots (<[k := o]> (<[j := h]> (slots st))) st).

(** [~SharedPtr()]: [release()], then the object is gone. *)
Definition destroy (k : nat) (st : St) : option St :=
  h ← slots st !! k;
  st1 ← release h st;
  Some (set_slots (delete k (slots st1)) st1).

(** [use_count()]: [count_ ? count_->load() : 0].  A cell only ever holds
    [1] or a value produced by [wrap32], so the load is an [int]. *)
Definition use_count (k : nat) (st : St) : option Z :=
  h ← slots st !! k;
  match count_ h with
  | None => Some 0
  | Some c => cells st !! c
  end.

(** [explicit operator bool()]: [ptr_ != nullptr]. *)
Definition to_bool (k : nat) (st : St) : option bool :=
  h ← slots st !! k;
  Some (match ptr_ h with Some _ => true | None => false end).

(** Handle operations as a program of the client. *)
Inductive op :=
| OCtorEmpty (k : nat)
| OCtorBind (k : nat) (p : option res) (d : deleter)
| OCopy (k j : nat)
| OAssign (k j : nat)
| OReset (k : nat) (p : option res) (d : deleter)
| OSwap (k j : nat)
| ODestroy (k : nat).

Definition step (o : op) (st : St) : option St :=
  match o with
  | OCtorEmpty k => ctor_empty k st
  | OCtorBind k p d => ctor_bind k p d st
  | OCopy k j => ctor_copy k j st
  | OAssign k j => assign k j st
  | OReset k p d => reset k p d st
  | OSwap k j => swap k j st
  | ODestroy k => destroy k st
  end.

Fixpoint run (os : list op) (st : St) : option St :=
  match os with
  | [] => Some st
  | o :: os' => st1 ← step o st; run os' st1
  end.

Definition init : St := mkSt ∅ ∅ [].


(** The handle-level invariant of the data model: [count_] is null iff
    [ptr_] is null. *)
Definition null_iff (h : handle) : Prop :=
  ptr_ h = None <-> count_ h = None.

Definition all_null_iff (st : St) : Prop :=
  forall k h, slots st !! k = Some h -> null_iff h.

(** Its one-way half: a null [count_] comes with a null [ptr_]. *)
Definition all_cnull_pnull (st : St) : Prop :=
  forall k h, slots st !! k = Some h -> count_ h = None -> ptr_ h = None.

(** Bound construction and [reset] given a non-null pointer. *)
Definition binds_nonnull (o : op) : Prop :=
  match o with
  | OCtorBind _ p _ | OReset _ p _ => p <> None
  | _ => True
  end.

(** The handle values an operation can create (all others are copies of
    handles that existed before). *)
Definition new_handle (o : op) (h : handle) : Prop :=
  match o with
  | OCtorEmpty _ => h = mkHandle None None defaultDeleter
  | OCtorBind _ p d | OReset _ p d => exists c, h = mkHandle p (Some c) d
  | _ => False
  end.


(** [c] is the counter cell of handle [h]: 1, otherwise 0. *)
Definition ind (c : loc) (h : handle) : nat :=
  if decide (count_ h = Some c) then 1%nat else 0%nat.

(** The number of live handle objects whose [count_] is [c]. *)
Definition refs (c : loc) (ss : gmap nat handle) : nat :=
  size (filter (fun kh : nat * handle => count_ kh.2 = Some c) ss).

(** Reference-count invariant of the cell store: every live cell holds the
    number of live handles referencing it, which fits in an [int], and no
    live handle references a freed cell. *)
Definition wf (cs : gmap loc Z) (ss : gmap nat handle) : Prop :=
  (forall c v, cs !! c = Some v -> v = Z.of_nat (refs c ss) /\ v <= int_max) /\
  (forall k h c, ss !! k = Some h -> count_ h = Some c -> is_Some (cs !! c)).

(** [get()]: [return ptr_;] *)
Definition get (k : nat) (st : St) : option (option res) :=
  h ← slots st !! k;
  Some (ptr_ h).

(** [make_shared<T>(args...)]: [SharedPtr<T>(new T(args...))]; [p] is the
    address returned by [new T(args...)]. *)
Definition make_shared (k : nat) (p : res) (st : St) : option St :=
  ctor_bind k (Some p) defaultDeleter st.

(** What each operation needs to be applied at all: a constructor builds a
    new object in storage that holds none, the other operations act on live
    objects. *)
Definition op_pre (o : op) (st : St) : Prop :=
  match o with
  | OCtorEmpty k | OCtorBind k _ _ => slots st !! k = None
  | OCopy k j => slots st !! k = None /\ is_Some (slots st !! j)
  | OAssign k j | OSwap k j => is_Some (slots st !! k) /\ is_Some (slots st !! j)
  | OReset k _ _ | ODestroy k => is_Some (slots st !! k)
  end.

(** No counter cell is referenced by more than [INT_MAX] live handles. *)
Definition bounded (st : St) : Prop :=
  forall c, Z.of_nat (refs c (slots st)) <= int_max.

(** The states a program passes through, up to its first undefined step. *)
Fixpoint trace (os : list op) (st : St) : list St :=
  match os with
  | [] => []
  | o :: os' =>
      match step o st with
      | Some st1 => st1 :: trace os' st1
      | None => []
      end
  end.

(** Operations that never release a handle. *)
Definition releases_nothing (o : op) : Prop :=
  match o with
  | OCtorEmpty _ | OCtorBind _ _ _ | OCopy _ _ | OSwap _ _ => True
  | _ => False
  end.

End Shared.

Module Unique.

(** The fields of [UniquePtr<T, Deleter>]: [ptr_], [deleter_]. *)
Record uhandle := mkU {
  uptr : option res;
  udel : deleter
}.

Record USt := mkUSt {
  uslots : gmap nat uhandle;
  ulog : list event
}.

Definition set_uslots (ss : gmap nat uhandle) (st : USt) : USt :=
  mkUSt ss (ulog st).

Definition fresh_uslot (k : nat) (st : USt) : option unit :=
  match uslots st !! k with None => Some tt | Some _ => None end.

(** [UniquePtr(T *ptr = nullptr, const Deleter &d = Deleter())]. *)
Definition ctor (k : nat) (p : option res) (d : deleter) (st : USt) : option USt :=
  _ ← fresh_uslot k st;
  Some (set_uslots (<[k := mkU p d]> (uslots st)) st).

(** [UniquePtr(UniquePtr &&other)]:
    [ptr_(other.ptr_), deleter_(std::move(other.deleter_))] then
    [other.ptr_ = nullptr]. *)
Definition move_ctor (k j : nat) (st : USt) : option USt :=
  _ ← fresh_uslot k st;
  o ← uslots st !! j;
  Some (set_uslots (<[j := mkU None (udel o)]> (<[k := o]> (uslots st))) st).

(** [swap(UniquePtr &other)]: [std::swap] of [ptr_] and [deleter_]. *)
Definition swap (k j : nat) (st : USt) : option USt :=
  h ← uslots st !! k;
  o ← uslots st !! j;
  Some (set_uslots (<[k := o]> (<[j := h]> (uslots st))) st).

(** [operator=(UniquePtr &&other)]: [swap(other); return *this;] *)
Definition move_assign (k j : nat) (st : USt) : option USt :=
  swap k j st.

(** [release()]: [T *tmp = ptr_; ptr_ = nullptr; return tmp;] *)
Definition release (k : nat) (st : USt) : option (option res * USt) :=
  h ← uslots st !! k;
  Some (uptr h, set_uslots (<[k := mkU None (udel h)]> (uslots st)) st).

(** [reset(T *p = nullptr)]: [if (ptr_) deleter_(ptr_); ptr_ = p;] *)
Definition reset (k : nat) (p : option res) (st : USt) : option USt :=
  h ← uslots st !! k;
  let lg := match uptr h with
            | Some _ => ulog st ++ [(udel h, uptr h)]
            | None => ulog st
            end in
  Some (mkUSt (<[k := mkU p (udel h)]> (uslots st)) lg).

(** [~UniquePtr()]: [reset()], then the object is gone. *)
Definition destroy (k : nat) (st : USt) : option USt :=
  st1 ← reset k None st;
  Some (set_uslots (delete k (uslots st1)) st1).

(** [explicit operator bool()]: [ptr_ != nullptr]. *)
Definition to_bool (k : nat) (st : USt) : option bool :=
  h ← uslots st !! k;
  Some (match uptr h with Some _ => true | None => false end).

Definition uinit : USt := mkUSt ∅ [].

(** [get()]: [return ptr_;] *)
Definition get (k : nat) (st : USt) : option (option res) :=
  h ← uslots st !! k;
  Some (uptr h).

(** [make_unique<T>(args...)]: [UniquePtr<T>(new T(args...))]; [p] is the
    address returned by [new T(args...)]. *)
Definition make_unique (k : nat) (p : res) (st : USt) : option USt :=
  ctor k (Some p) defaultDeleter st.

(** Handle operations as a program of the client. *)
Inductive uop :=
| UCtor (k : nat) (p : option res) (d : deleter)
| UMoveCtor (k j : nat)
| UMoveAssign (k j : nat)
| USwap (k j : nat)
| URelease (k : nat)
| UReset (k : nat) (p : option res)
| UDestroy (k : nat).

Definition ustep (o : uop) (st : USt) : option USt :=
  match o with
  | UCtor k p d => ctor k p d st
  | UMoveCtor k j => move_ctor k j st
  | UMoveAssign k j => move_assign k j st
  | USwap k j => swap k j st
  | URelease k => r ← release k st; Some r.2
  | UReset k p => reset k p st
  | UDestroy k => destroy k st
  end.

Fixpoint urun (os : list uop) (st : USt) : option USt :=
  match os with
  | [] => Some st
  | o :: os' => st1 ← ustep o st; urun os' st1
  end.

(** [u_{i+1} = std::move(u_i)] along a chain of new objects. *)
Fixpoint move_chain (cur : nat) (ks : list nat) : list uop :=
  match ks with
  | [] => []
  | k :: ks' => UMoveCtor k cur :: move_chain k ks'
  end.

(** No two live handles hold the same non-null pointer. *)
Definition uniq (st : USt) : Prop :=
  forall k1 k2 h1 h2 q, uslots st !! k1 = Some h1 -> uslots st !! k2 = Some h2 ->
    uptr h1 = Some q -> uptr h2 = Some q -> k1 = k2.

(** A pointer given to a constructor or to [reset] is not held by another
    live handle. *)
Definition binds_unowned (o : uop) (st : USt) : Prop :=
  match o with
  | UCtor k p _ | UReset k p =>
      forall q k' h', p = Some q -> k' <> k -> uslots st !! k' = Some h' -> uptr h' <> Some q
  | _ => True
  end.

End Unique.

(** The array specialization [UniquePtr<T[], Deleter>] (no move operations,
    no [release], no [get]).  Its state adds the contents of the int blocks
    ([new int[n]]), keyed by their address; calling [std::default_delete<T[]>]
    ([delete[]]) frees the block. *)
Module UniqueArray.
Import Unique.

Record ASt := mkASt {
  aslots : gmap nat uhandle;
  amem : gmap res (list Z);
  alog : list event
}.

Definition fresh_aslot (k : nat) (st : ASt) : option unit :=
  match aslots st !! k with None => Some tt | Some _ => None end.

(** [UniquePtr(T *p = nullptr, const Deleter &d = Deleter())]. *)
Definition ctor (k : nat) (p : option res) (d : deleter) (st : ASt) : option ASt :=
  _ ← fresh_aslot k st;
  Some (mkASt (<[k := mkU p d]> (aslots st)) (amem st) (alog st)).

(** Calling [deleter_(ptr_)]: logged; [delete[]] frees the block. *)
Definition call_deleter (d : deleter) (q : res) (st : ASt) : ASt :=
  mkASt (aslots st)
        (if Nat.eqb d defaultDeleter then delete q (amem st) else amem st)
        (alog st ++ [(d, Some q)]).

(** [reset(T *p = nullptr)]: [if (ptr_) deleter_(ptr_); ptr_ = p;] *)
Definition reset (k : nat) (p : option res) (st : ASt) : option ASt :=
  h ← aslots st !! k;
  let st1 := match uptr h with Some q => call_deleter (udel h) q st | None => st end in
  Some (mkASt (<[k := mkU p (udel h)]> (aslots st1)) (amem st1) (alog st1)).

(** [~UniquePtr()]: [reset()], then the object is gone. *)
Definition destroy (k : nat) (st : ASt) : option ASt :=
  st1 ← reset k None st;
  Some (mkASt (delete k (aslots st1)) (amem st1) (alog st1)).

(** [swap(UniquePtr &other)]. *)
Definition swap (k j : nat) (st : ASt) : option ASt :=
  h ← aslots st !! k;
  o ← aslots st !! j;
  Some (mkASt (<[k := o]> (<[j := h]> (aslots st))) (amem st) (alog st)).

(** [operator[](index)]: [ptr_[index]], read.  A null [ptr_], a freed block
    or an index past the block is undefined behaviour. *)
Definition index_get (k : nat) (i : nat) (st : ASt) : option Z :=
  h ← aslots st !! k;
  q ← uptr h;
  blk ← amem st !! q;
  blk !! i.

(** [p[index] = v]: a write through the reference [operator[]] returns. *)
Definition index_set (k : nat) (i : nat) (v : Z) (st : ASt) : option ASt :=
  h ← aslots st !! k;
  q ← uptr h;
  blk ← amem st !! q;
  if Nat.ltb i (length blk)
  then Some (mkASt (aslots st) (<[q := <[i := v]> blk]> (amem st)) (alog st))
  else None.

(** [explicit operator bool()]. *)
Definition to_bool (k : nat) (st : ASt) : option bool :=
  h ← aslots st !! k;
  Some (match uptr h with Some _ => true | None => false end).

End UniqueArray.

(** * Properties of [SharedPtr] *)
Module SharedFacts.
Import Shared.

(** The scenario of [main()] (without [make_shared], which is [ctor_bind]). *)
Example main_scenario :
  let st := run [OCtorBind 1 (Some 5%nat) defaultDeleter; OCopy 2 1;
                 OCtorEmpty 3; OAssign 3 1] init in
  (st ≫= use_count 1, st ≫= use_count 2, st ≫= use_count 3) = (Some 3, Some 3, Some 3).
Proof. vm_compute. reflexivity. Qed.


Lemma wrap32_id x : int_min <= x <= int_max -> wrap32 x = x.
Proof.
  unfold wrap32, int_min, int_max. intros Hx.
  rewrite Z.mod_small by lia. lia.
Qed.

Lemma wrap32_range x : int_min <= wrap32 x <= int_max.
Proof.
  unfold wrap32, int_min, int_max.
  pose proof (Z.mod_pos_bound (x + 2 ^ 31) (2 ^ 32) ltac:(lia)). lia.
Qed.

Lemma wrap32_succ x : wrap32 (wrap32 x + 1) = wrap32 (x + 1).
Proof.
  unfold wrap32.
  replace ((x + 2 ^ 31) mod 2 ^ 32 - 2 ^ 31 + 1 + 2 ^ 31)
    with ((x + 2 ^ 31) mod 2 ^ 32 + 1) by lia.
  rewrite Zplus_mod_idemp_l. f_equal. f_equal. lia.
Qed.

Lemma wrap32_pred x : wrap32 (wrap32 x - 1) = wrap32 (x - 1).
Proof.
  unfold wrap32.
  replace ((x + 2 ^ 31) mod 2 ^ 32 - 2 ^ 31 - 1 + 2 ^ 31)
    with ((x + 2 ^ 31) mod 2 ^ 32 + -1) by lia.
  rewrite Zplus_mod_idemp_l. f_equal. f_equal. lia.
Qed.

Lemma wrap32_period x : wrap32 (x + 2 ^ 32) = wrap32 x.
Proof.
  unfold wrap32. replace (x + 2 ^ 32 + 2 ^ 31) with (x + 2 ^ 31 + 1 * 2 ^ 32) by lia.
  rewrite Z.mod_add by lia. reflexivity.
Qed.

(** Below one full turn of the counter, the wrapped value is 1 only for 1. *)
Lemma wrap32_one x : 1 <= x <= 2 ^ 32 -> wrap32 x = 1 -> x = 1.
Proof.
  intros Hx. destruct (Z.le_gt_cases x int_max) as [Hs|Hb].
  - rewrite wrap32_id by (unfold int_min, int_max in *; lia). auto.
  - unfold int_max in Hb. unfold wrap32.
    replace (x + 2 ^ 31) with ((x - 2 ^ 31) + 1 * 2 ^ 32) by lia.
    rewrite Z.mod_add by lia. rewrite Z.mod_small by lia. lia.
Qed.

Lemma release_slots h st st1 :
  release h st = Some st1 -> slots st1 = slots st.
Proof.
  unfold release. destruct (count_ h) as [c|]; [|congruence].
  destruct (cells st !! c) as [v|]; simpl; [|congruence].
  destruct (Z.eqb v 1); intros E; inversion E; reflexivity.
Qed.

Lemma acquire_slots o st st1 :
  acquire o st = Some st1 -> slots st1 = slots st /\ log st1 = log st.
Proof.
  unfold acquire. destruct (count_ o) as [c|]; [|intros E; inversion E; auto].
  destruct (cells st !! c) as [v|]; simpl; [|congruence].
  intros E; inversion E; auto.
Qed.


(** Claim C3 (code bug): [reset()] with no arguments does not empty the
    handle.  After [h.reset()] on a handle bound to a resource, its boolean
    conversion is false, but [use_count()] is 1 and [count_] is a freshly
    allocated counter cell, instead of the empty state of [SharedPtr()]. *)
Lemma reset_no_args_keeps_counter_cell :
  exists st h,
    (run [OCtorBind 1 (Some 5%nat) defaultDeleter] init ≫=
       reset 1 None defaultDeleter) = Some st /\
    slots st !! 1%nat = Some h /\
    to_bool 1 st = Some false /\
    use_count 1 st = Some 1 /\
    count_ h <> None.
Proof.
  eexists; eexists; split; [vm_compute; reflexivity|].
  split; [vm_compute; reflexivity|].
  split; [vm_compute; reflexivity|].
  split; [vm_compute; reflexivity|].
  discriminate.
Qed.

(** Claim C6: [swap] exchanges the three fields of the two handles (either
    possibly empty, possibly the same object), leaves every counter cell and
    the cell store unchanged (no allocation, no deallocation) and invokes no
    cleanup routine; no other handle changes. *)
Theorem swap_exchanges_only_fields (a b : nat) (ha hb : handle) (st : St) :
  slots st !! a = Some ha ->
  slots st !! b = Some hb ->
  exists st',
    swap a b st = Some st' /\
    slots st' !! a = Some hb /\
    slots st' !! b = Some ha /\
    (forall k, k <> a -> k <> b -> slots st' !! k = slots st !! k) /\
    cells st' = cells st /\
    log st' = log st.
Proof.
  intros Ha Hb. unfold swap. rewrite Ha, Hb. simpl.
  eexists; split; [reflexivity|]. simpl.
  split; [by rewrite lookup_insert_eq|].
  split.
  - rewrite lookup_insert. case_decide as E.
    + subst. rewrite Ha in Hb. congruence.
    + by rewrite lookup_insert_eq.
  - split; [|auto].
    intros k Hka Hkb. rewrite lookup_insert_ne by congruence.
    by rewrite lookup_insert_ne by congruence.
Qed.

Lemma swap_exchanges_only_fields_witness :
  exists st, run [OCtorBind 1 (Some 5%nat) defaultDeleter; OCtorEmpty 2] init = Some st /\
  exists st',
    swap 1 2 st = Some st' /\
    slots st' !! 1%nat = Some (mkHandle None None defaultDeleter) /\
    slots st' !! 2%nat = Some (mkHandle (Some 5%nat) (Some 0%nat) defaultDeleter) /\
    (forall k, k <> 1%nat -> k <> 2%nat -> slots st' !! k = slots st !! k) /\
    cells st' = cells st /\
    log st' = log st.
Proof.
  eexists; split; [vm_compute; reflexivity|].
  apply (swap_exchanges_only_fields 1 2); vm_compute; reflexivity.
Defined.

(** Claim C7: the self-assignment [h = h] of a live handle is a no-op: the
    whole state (fields, counter values, cleanup log) is unchanged. *)
Theorem self_assign_noop (k : nat) (h : handle) (st : St) :
  slots st !! k = Some h -> assign k k st = Some st.
Proof.
  intros Hk. unfold assign. rewrite Hk. simpl. by rewrite Nat.eqb_refl.
Qed.

Lemma self_assign_noop_witness :
  exists st, run [OCtorBind 1 (Some 5%nat) defaultDeleter] init = Some st /\
  assign 1 1 st = Some st.
Proof.
  eexists; split; [vm_compute; reflexivity|].
  apply (self_assign_noop 1 (mkHandle (Some 5%nat) (Some 0%nat) defaultDeleter)).
  vm_compute; reflexivity.
Defined.


Lemma release_cells_dec h st st1 :
  release h st = Some st1 ->
  forall c v', cells st1 !! c = Some v' ->
    exists v, cells st !! c = Some v /\ (v' = v \/ v' = wrap32 (v - 1)).
Proof.
  unfold release. destruct (count_ h) as [c0|].
  - destruct (cells st !! c0) as [v0|] eqn:E0; simpl; [|congruence].
    intros Hr c v'.
    destruct (Z.eqb v0 1); inversion Hr; subst; simpl.
    + rewrite lookup_delete. case_decide; [congruence|].
      rewrite lookup_insert_ne by auto. intros Hc. exists v'. auto.
    + rewrite lookup_insert. case_decide as Ec.
      * subst. intros Hv. inversion Hv. exists v0. auto.
      * intros Hc. exists v'. auto.
  - intros Hr. inversion Hr. subst. intros c v' Hc. exists v'. auto.
Qed.

(** Claim C9: copying from an empty handle ([ptr_] and [count_] null) yields
    an empty destination with [use_count() == 0]: copy construction leaves
    every counter cell as it was, and copy assignment increments and
    allocates no counter cell: every cell after it existed before and is
    unchanged or was decremented by [fetch_sub] (the one the destination
    released, possibly freed), so no [int] value above [INT_MIN] goes up. *)
Theorem copy_from_empty_is_empty (k k' j : nat) (d : deleter) (st st' : St) :
  slots st !! j = Some (mkHandle None None d) ->
  slots st !! k = None ->
  assign k' j st = Some st' ->
  (exists st1,
      ctor_copy k j st = Some st1 /\
      slots st1 !! k = Some (mkHandle None None d) /\
      use_count k st1 = Some 0 /\
      cells st1 = cells st) /\
  (slots st' !! k' = Some (mkHandle None None d) /\
   use_count k' st' = Some 0 /\
   (forall c v', cells st' !! c = Some v' ->
      exists v, cells st !! c = Some v /\ (v' = v \/ v' = wrap32 (v - 1)) /\
                (int_min < v <= int_max -> v' <= v))).
Proof.
  intros Hj Hk Ha. split.
  - unfold ctor_copy, fresh_slot. rewrite Hk, Hj. simpl.
    eexists; split; [reflexivity|]. simpl.
    unfold use_count. simpl. rewrite lookup_insert_eq. simpl. auto.
  - unfold assign in Ha.
    destruct (slots st !! k') as [h|] eqn:Hk'; simpl in Ha; [|congruence].
    rewrite Hj in Ha. simpl in Ha.
    destruct (Nat.eqb k' j) eqn:Ekj.
    + apply Nat.eqb_eq in Ekj. subst. inversion Ha. subst.
      unfold use_count. rewrite Hj. simpl.
      split; [reflexivity|]. split; [reflexivity|].
      intros c v' Hc. exists v'. split; [exact Hc|]. split; [auto|lia].
    + destruct (release h st) as [st1|] eqn:Hr; simpl in Ha; [|congruence].
      unfold acquire in Ha. simpl in Ha. inversion Ha. subst. simpl.
      unfold use_count. simpl. rewrite lookup_insert_eq. simpl.
      split; [reflexivity|]. split; [reflexivity|].
      intros c v' Hc. destruct (release_cells_dec h st st1 Hr c v' Hc) as (v & Hv & Hd).
      exists v. split; [exact Hv|]. split; [exact Hd|]. intros Hmin.
      destruct Hd as [ -> | -> ]; [lia|].
      rewrite wrap32_id; [lia|]. pose proof (wrap32_range v). unfold int_min, int_max in *. lia.
Qed.

Lemma copy_from_empty_is_empty_witness :
  exists st, run [OCtorBind 1 (Some 5%nat) defaultDeleter; OCtorEmpty 2] init = Some st /\
  exists st', assign 1 2 st = Some st' /\
  ((exists st1,
      ctor_copy 3 2 st = Some st1 /\
      slots st1 !! 3%nat = Some (mkHandle None None defaultDeleter) /\
      use_count 3 st1 = Some 0 /\
      cells st1 = cells st) /\
   (slots st' !! 1%nat = Some (mkHandle None None defaultDeleter) /\
    use_count 1 st' = Some 0 /\
    (forall c v', cells st' !! c = Some v' ->
       exists v, cells st !! c = Some v /\ (v' = v \/ v' = wrap32 (v - 1)) /\
                 (int_min < v <= int_max -> v' <= v)))).
Proof.
  eexists; split; [vm_compute; reflexivity|].
  eexists; split; [vm_compute; reflexivity|].
  apply (copy_from_empty_is_empty 3 1 2 defaultDeleter); vm_compute; reflexivity.
Defined.

(** Claim C10: binding a null pointer still allocates a counter cell with
    count 1: [use_count()] is 1, [operator bool] is false, and destroying the
    handle calls the stored cleanup routine exactly once, on [nullptr]. *)
Theorem bind_null_allocates_cell (k : nat) (d : deleter) (st : St) :
  slots st !! k = None ->
  exists st1,
    ctor_bind k None d st = Some st1 /\
    (exists c, slots st1 !! k = Some (mkHandle None (Some c) d)) /\
    use_count k st1 = Some 1 /\
    to_bool k st1 = Some false /\
    exists st2, destroy k st1 = Some st2 /\ log st2 = log st ++ [(d, None)].
Proof.
  intros Hk. unfold ctor_bind, fresh_slot. rewrite Hk. simpl.
  eexists; split; [reflexivity|].
  split; [eexists; simpl; apply lookup_insert_eq|].
  split; [unfold use_count; simpl; rewrite lookup_insert_eq; simpl; apply lookup_insert_eq|].
  split; [unfold to_bool; simpl; rewrite lookup_insert_eq; reflexivity|].
  unfold destroy, release. simpl. rewrite lookup_insert_eq. simpl.
  rewrite lookup_insert_eq. simpl.
  eexists; split; reflexivity.
Qed.

Lemma bind_null_allocates_cell_witness :
  exists st1,
    ctor_bind 1 None 7%nat init = Some st1 /\
    (exists c, slots st1 !! 1%nat = Some (mkHandle None (Some c) 7%nat)) /\
    use_count 1 st1 = Some 1 /\
    to_bool 1 st1 = Some false /\
    exists st2, destroy 1 st1 = Some st2 /\ log st2 = log init ++ [(7%nat, None)].
Proof. apply (bind_null_allocates_cell 1 7%nat init). vm_compute. reflexivity. Defined.


Ltac lookup_cases :=
  repeat match goal with
  | H : context [<[_ := _]> _ !! _] |- _ => rewrite lookup_insert in H
  | H : context [delete _ _ !! _] |- _ => rewrite lookup_delete in H
  | H : context [decide ?P] |- _ => destruct (decide P)
  end.

(** Every handle after a step is a handle from before the step, or one
    created by the step itself. *)
Lemma step_handles o st st' k h :
  step o st = Some st' -> slots st' !! k = Some h ->
  (exists k0, slots st !! k0 = Some h) \/ new_handle o h.
Proof.
  destruct o as [k1|k1 p d|k1 j|k1 j|k1 p d|k1 j|k1]; simpl.
  - unfold ctor_empty, fresh_slot. destruct (slots st !! k1); simpl; [congruence|].
    intros E; inversion E; subst; simpl; intros Hl.
    lookup_cases; [right; congruence|left; eauto].
  - unfold ctor_bind, fresh_slot. destruct (slots st !! k1); simpl; [congruence|].
    intros E; inversion E; subst; simpl; intros Hl.
    lookup_cases; [right; inversion Hl; eauto|left; eauto].
  - unfold ctor_copy, fresh_slot. destruct (slots st !! k1); simpl; [congruence|].
    destruct (slots st !! j) as [o|] eqn:Hj; simpl; [|congruence].
    destruct (acquire o st) as [st1|] eqn:Ha; simpl; [|congruence].
    apply acquire_slots in Ha as [Hs _].
    intros E; inversion E; subst; simpl; intros Hl. rewrite Hs in Hl.
    lookup_cases; [left; inversion Hl; subst; eauto|left; eauto].
  - unfold assign.
    destruct (slots st !! k1) as [h1|]; simpl; [|congruence].
    destruct (slots st !! j) as [o|] eqn:Hj; simpl; [|congruence].
    destruct (Nat.eqb k1 j).
    + intros E; inversion E; subst; eauto.
    + destruct (release h1 st) as [st1|] eqn:Hr; simpl; [|congruence].
      destruct (acquire o st1) as [st2|] eqn:Ha; simpl; [|congruence].
      apply release_slots in Hr. apply acquire_slots in Ha as [Hs _].
      intros E; inversion E; subst; simpl; intros Hl. rewrite Hs, Hr in Hl.
      lookup_cases; [left; inversion Hl; subst; eauto|left; eauto].
  - unfold reset.
    destruct (slots st !! k1) as [h1|]; simpl; [|congruence].
    destruct (release h1 st) as [st1|] eqn:Hr; simpl; [|congruence].
    apply release_slots in Hr.
    intros E; inversion E; subst; simpl; intros Hl. rewrite Hr in Hl.
    lookup_cases; [right; inversion Hl; eauto|left; eauto].
  - unfold swap.
    destruct (slots st !! k1) as [h1|] eqn:H1; simpl; [|congruence].
    destruct (slots st !! j) as [o|] eqn:Hj; simpl; [|congruence].
    intros E; inversion E; subst; simpl; intros Hl.
    lookup_cases; left; inversion Hl; subst; eauto.
  - unfold destroy.
    destruct (slots st !! k1) as [h1|]; simpl; [|congruence].
    destruct (release h1 st) as [st1|] eqn:Hr; simpl; [|congruence].
    apply release_slots in Hr.
    intros E; inversion E; subst; simpl; intros Hl. rewrite Hr in Hl.
    lookup_cases; [congruence|left; eauto].
Qed.

(** Claim C4 (as stated): every operation preserves "[count_] is null iff
    [ptr_] is null".  It does not: a bound construction from [nullptr]
    allocates a counter cell for a null resource pointer. *)
Lemma null_iff_not_preserved :
  ~ (forall o st st', all_null_iff st -> step o st = Some st' -> all_null_iff st').
Proof.
  intros Hall.
  assert (Hinit : all_null_iff init).
  { intros k h Hl. simpl in Hl. rewrite lookup_empty in Hl. discriminate. }
  specialize (Hall (OCtorBind 1 None defaultDeleter) init _ Hinit eq_refl
                   1%nat (mkHandle None (Some 0%nat) defaultDeleter) eq_refl).
  unfold null_iff in Hall. simpl in Hall. destruct Hall as [H _].
  specialize (H eq_refl). discriminate.
Qed.

(** Claim C4 (amended): every operation preserves the one-way invariant
    "a null [count_] comes with a null [ptr_]"; the full "null iff"
    invariant is preserved by every operation other than a bound
    construction or [reset] given [nullptr]. *)
Theorem null_invariants_preserved (o : op) (st st' : St) :
  step o st = Some st' ->
  (all_cnull_pnull st -> all_cnull_pnull st') /\
  (binds_nonnull o -> all_null_iff st -> all_null_iff st').
Proof.
  intros Hs. split.
  - intros Hinv k h Hl Hc.
    destruct (step_handles o st st' k h Hs Hl) as [[k0 H0]|Hn]; [eauto|].
    destruct o; simpl in Hn; try contradiction.
    + subst; reflexivity.
    + destruct Hn as [c ->]. discriminate.
    + destruct Hn as [c ->]. discriminate.
  - intros Hb Hinv k h Hl.
    destruct (step_handles o st st' k h Hs Hl) as [[k0 H0]|Hn]; [eauto|].
    destruct o; simpl in Hn, Hb; try contradiction.
    + subst. unfold null_iff; simpl; tauto.
    + destruct Hn as [c ->]. unfold null_iff; simpl.
      split; intros E; [contradiction|discriminate].
    + destruct Hn as [c ->]. unfold null_iff; simpl.
      split; intros E; [contradiction|discriminate].
Qed.

Lemma null_invariants_preserved_witness :
  exists st', step (OCtorBind 1 (Some 5%nat) defaultDeleter) init = Some st' /\
  ((all_cnull_pnull init -> all_cnull_pnull st') /\
   (binds_nonnull (OCtorBind 1 (Some 5%nat) defaultDeleter) ->
    all_null_iff init -> all_null_iff st')).
Proof.
  eexists; split; [vm_compute; reflexivity|].
  apply (null_invariants_preserved (OCtorBind 1 (Some 5%nat) defaultDeleter) init).
  vm_compute; reflexivity.
Defined.


Section OneGroup.
(** One ownership group: the handle value [H] shared by all its members. *)
Variable c : loc.
Variable H : handle.
Hypothesis H_cell : count_ H = Some c.

(** Copy-constructing [N] new handles from the live handle [k0]: the count
    goes up by [N] (modulo 2^32) and no cleanup runs. *)
Lemma copies_increment (k0 : nat) (ks : list nat) :
  forall (st : St) (n : Z),
  NoDup ks -> k0 ∉ ks ->
  (forall k, k ∈ ks -> slots st !! k = None) ->
  slots st !! k0 = Some H ->
  cells st !! c = Some (wrap32 n) ->
  exists st',
    run (map (fun k => OCopy k k0) ks) st = Some st' /\
    log st' = log st /\
    cells st' !! c = Some (wrap32 (n + Z.of_nat (length ks))) /\
    (forall k, k ∈ ks \/ slots st !! k = Some H -> slots st' !! k = Some H).
Proof.
  induction ks as [|k ks IH]; intros st n Hnd Hk0 Hfr H0 Hc.
  - exists st. simpl.
    split; [reflexivity|]. split; [reflexivity|].
    split; [rewrite Hc; do 2 f_equal; lia|].
    intros k [Hin|Hk]; [inversion Hin|exact Hk].
  - apply NoDup_cons in Hnd as [Hnin Hnd].
    assert (Hkf : slots st !! k = None) by (apply Hfr; left).
    assert (Hk0k : k0 <> k) by (intros ->; apply Hk0; left).
    set (st1 := set_slots (<[k := H]> (slots st))
                  (set_cells (<[c := wrap32 (n + 1)]> (cells st)) st)).
    assert (Hstep : step (OCopy k k0) st = Some st1).
    { simpl. unfold ctor_copy, fresh_slot, acquire. rewrite Hkf, H0. simpl.
      rewrite H_cell, Hc. simpl. rewrite wrap32_succ. reflexivity. }
    destruct (IH st1 (n + 1)) as (st' & Hrun & Hlog & Hc' & Hsl).
    + exact Hnd.
    + intros Hin. apply Hk0. right. exact Hin.
    + intros k' Hin. simpl. rewrite lookup_insert_ne.
      * apply Hfr. right. exact Hin.
      * intros ->. contradiction.
    + simpl. rewrite lookup_insert_ne by auto. exact H0.
    + simpl. apply lookup_insert_eq.
    + exists st'. cbn [map run]. rewrite Hstep. simpl.
      split; [exact Hrun|]. split; [exact Hlog|].
      split; [rewrite Hc'; do 2 f_equal; lia|].
      intros k' Hk'. apply Hsl.
      destruct (decide (k' = k)) as [->|Hne].
      * right. simpl. apply lookup_insert_eq.
      * destruct Hk' as [Hin|Hsk].
        -- apply elem_of_cons in Hin as [->|Hin]; [contradiction|left; exact Hin].
        -- right. simpl. rewrite lookup_insert_ne by auto. exact Hsk.
Qed.

(** Destroying members of the group while at least [m >= 1] references
    remain uncounted, with fewer than one full turn of the counter: every
    [release] sees a count other than 1, so no cleanup runs and the count
    drops by one per destruction. *)
Lemma destroys_decrement (pre : list nat) (m : Z) :
  1 <= m ->
  forall st : St,
  NoDup pre ->
  Z.of_nat (length pre) + m <= 2 ^ 32 ->
  (forall k, k ∈ pre -> slots st !! k = Some H) ->
  cells st !! c = Some (wrap32 (Z.of_nat (length pre) + m)) ->
  exists st',
    run (map ODestroy pre) st = Some st' /\
    log st' = log st /\
    cells st' !! c = Some (wrap32 m) /\
    (forall k, k ∉ pre -> slots st' !! k = slots st !! k).
Proof.
  intros Hm. induction pre as [|k pre IH]; intros st Hnd Hlen Hsl Hc.
  - exists st. simpl in *.
    split; [reflexivity|]. split; [reflexivity|].
    split; [rewrite Hc; do 2 f_equal; lia|auto].
  - apply NoDup_cons in Hnd as [Hnin Hnd].
    assert (Hk : slots st !! k = Some H) by (apply Hsl; left).
    set (x := Z.of_nat (length (k :: pre)) + m) in Hc, Hlen.
    set (st1 := set_slots (delete k (slots st))
                  (set_cells (<[c := wrap32 (x - 1)]> (cells st)) st)).
    assert (Hstep : step (ODestroy k) st = Some st1).
    { simpl. unfold destroy, release. rewrite Hk. simpl. rewrite H_cell, Hc. simpl.
      replace (Z.eqb (wrap32 x) 1) with false.
      - simpl. rewrite wrap32_pred. reflexivity.
      - symmetry. apply Z.eqb_neq. intros E.
        apply wrap32_one in E; [subst x; simpl in E; lia|subst x; simpl in *; lia]. }
    destruct (IH st1) as (st' & Hrun & Hlog & Hc' & Hrest).
    + exact Hnd.
    + subst x. simpl in Hlen. lia.
    + intros k' Hin. simpl. rewrite lookup_delete_ne.
      * apply Hsl. right. exact Hin.
      * intros ->. contradiction.
    + simpl. rewrite lookup_insert_eq. do 2 f_equal. subst x. simpl. lia.
    + exists st'. cbn [map run]. rewrite Hstep. simpl.
      split; [exact Hrun|]. split; [exact Hlog|]. split; [exact Hc'|].
      intros k' Hk'. rewrite Hrest.
      * simpl. rewrite lookup_delete_ne; [reflexivity|].
        intros ->. apply Hk'. left.
      * intros Hin. apply Hk'. right. exact Hin.
Qed.

End OneGroup.

(** Binding [p] into [k0] and copying it into the new handles [ks]: all of
    them hold the same fields, and the new cell holds [1 + N] modulo 2^32. *)
Lemma bind_then_copies (k0 : nat) (ks : list nat) (p : option res) (d : deleter) (st0 : St) :
  NoDup (k0 :: ks) ->
  (forall k, k ∈ k0 :: ks -> slots st0 !! k = None) ->
  exists st1,
    run (OCtorBind k0 p d :: map (fun k => OCopy k k0) ks) st0 = Some st1 /\
    log st1 = log st0 /\
    cells st1 !! new_cell st0 = Some (wrap32 (1 + Z.of_nat (length ks))) /\
    (forall k, k ∈ k0 :: ks -> slots st1 !! k = Some (mkHandle p (Some (new_cell st0)) d)).
Proof.
  intros Hnd Hfr.
  set (c := new_cell st0).
  set (H := mkHandle p (Some c) d).
  assert (Hk0 : slots st0 !! k0 = None) by (apply Hfr; left).
  set (stb := mkSt (<[c := 1]> (cells st0)) (<[k0 := H]> (slots st0)) (log st0)).
  assert (Hb : step (OCtorBind k0 p d) st0 = Some stb).
  { simpl. unfold ctor_bind, fresh_slot. rewrite Hk0. reflexivity. }
  pose proof Hnd as Hnd'. apply NoDup_cons in Hnd' as [Hk0ks Hndks].
  destruct (copies_increment c H eq_refl k0 ks stb 1) as (st1 & Hr1 & Hl1 & Hc1 & Hs1).
  - exact Hndks.
  - exact Hk0ks.
  - intros k Hin. simpl. rewrite lookup_insert_ne.
    + apply Hfr. right. exact Hin.
    + intros ->. contradiction.
  - simpl. apply lookup_insert_eq.
  - simpl. rewrite lookup_insert_eq. reflexivity.
  - exists st1. split; [cbn [run]; rewrite Hb; exact Hr1|].
    split; [exact Hl1|]. split; [exact Hc1|].
    intros k Hk. apply Hs1. apply elem_of_cons in Hk as [->|Hk].
    + right. simpl. apply lookup_insert_eq.
    + left. exact Hk.
Qed.

Lemma nodup_zero_seq (n : nat) : NoDup (0%nat :: seq 1 n).
Proof.
  apply NoDup_cons_2; [|apply NoDup_seq].
  rewrite elem_of_seq. lia.
Qed.

(** Claim C1 (as stated, for every N): with [N = 2^32] copies the [int]
    counter has turned over once and reads 1, so the first destruction runs
    the cleanup while the [2^32] copies are still live; their counter cell
    is freed ([use_count()] on them is undefined). *)
Lemma cleanup_early_after_2p32_copies :
  exists (ks : list nat) st1 st2,
    Z.of_nat (length ks) = 2 ^ 32 /\ NoDup (0%nat :: ks) /\
    run (OCtorBind 0 (Some 5%nat) defaultDeleter :: map (fun k => OCopy k 0) ks) init
      = Some st1 /\
    destroy 0 st1 = Some st2 /\
    log st2 = [(defaultDeleter, Some 5%nat)] /\
    (forall k, k ∈ ks -> get k st2 = Some (Some 5%nat) /\ use_count k st2 = None).
Proof.
  remember (Z.to_nat (2 ^ 32)) as n eqn:En.
  assert (Hlen : Z.of_nat (length (seq 1 n)) = 2 ^ 32).
  { rewrite length_seq, En. apply Z2Nat.id. lia. }
  destruct (bind_then_copies 0 (seq 1 n) (Some 5%nat) defaultDeleter init (nodup_zero_seq n))
    as (st1 & Hr1 & Hl1 & Hc1 & Hs1).
  { intros k _. apply lookup_empty. }
  rewrite Hlen in Hc1.
  rewrite wrap32_period in Hc1.
  set (c := new_cell init) in *.
  assert (H0 : slots st1 !! 0%nat = Some (mkHandle (Some 5%nat) (Some c) defaultDeleter))
    by (apply Hs1; left).
  exists (seq 1 n), st1.
  eexists. split; [exact Hlen|]. split; [apply nodup_zero_seq|].
  split; [exact Hr1|].
  unfold destroy, release. rewrite H0. simpl. rewrite Hc1.
  change (wrap32 1) with 1. simpl.
  split; [reflexivity|]. split; [rewrite Hl1; reflexivity|].
  intros k Hk.
  assert (Hk0 : k <> 0%nat) by (intros ->; apply elem_of_seq in Hk; lia).
  assert (Hks : slots st1 !! k = Some (mkHandle (Some 5%nat) (Some c) defaultDeleter))
    by (apply Hs1; right; exact Hk).
  unfold get, use_count. simpl. rewrite lookup_delete_ne by auto. rewrite Hks. simpl.
  split; [reflexivity|]. apply lookup_delete_eq.
Qed.

(** Claim C1 (amended): bind a resource [p] with cleanup [d] into handle
    [k0], copy it into the [N = length ks] handles [ks] with [N < 2^32], then
    destroy all [N+1] handles in any order [pre ++ [last]]: the destructions
    in [pre] run no cleanup, and the destruction of [last] runs exactly one,
    [d] on [p]. *)
Theorem cleanup_once_at_last_destroy (k0 : nat) (ks pre : list nat) (last : nat)
    (p : option res) (d : deleter) (st0 : St) :
  Z.of_nat (length ks) < 2 ^ 32 ->
  NoDup (k0 :: ks) ->
  (forall k, k ∈ k0 :: ks -> slots st0 !! k = None) ->
  Permutation (pre ++ [last]) (k0 :: ks) ->
  exists st1 st2 st3,
    run (OCtorBind k0 p d :: map (fun k => OCopy k k0) ks) st0 = Some st1 /\
    run (map ODestroy pre) st1 = Some st2 /\
    log st2 = log st0 /\
    destroy last st2 = Some st3 /\
    log st3 = log st0 ++ [(d, p)].
Proof.
  intros HN Hnd Hfr Hperm.
  set (c := new_cell st0).
  set (H := mkHandle p (Some c) d).
  assert (Hk0 : slots st0 !! k0 = None) by (apply Hfr; left).
  set (stb := mkSt (<[c := 1]> (cells st0)) (<[k0 := H]> (slots st0)) (log st0)).
  assert (Hb : step (OCtorBind k0 p d) st0 = Some stb).
  { simpl. unfold ctor_bind, fresh_slot. rewrite Hk0. reflexivity. }
  pose proof Hnd as Hnd'. apply NoDup_cons in Hnd' as [Hk0ks Hndks].
  destruct (copies_increment c H eq_refl k0 ks stb 1) as (st1 & Hr1 & Hl1 & Hc1 & Hs1).
  - exact Hndks.
  - exact Hk0ks.
  - intros k Hin. simpl. rewrite lookup_insert_ne.
    + apply Hfr. right. exact Hin.
    + intros ->. contradiction.
  - simpl. apply lookup_insert_eq.
  - simpl. rewrite lookup_insert_eq. reflexivity.
  - assert (Hnd2 : NoDup (pre ++ [last])).
    { rewrite Hperm. exact Hnd. }
    apply NoDup_app in Hnd2 as (Hndpre & Hlastpre & _).
    assert (Hlen : length (pre ++ [last]) = length (k0 :: ks))
      by (apply Permutation_length; exact Hperm).
    rewrite length_app in Hlen. simpl in Hlen.
    assert (Hmem : forall k, k ∈ pre ++ [last] -> slots st1 !! k = Some H).
    { intros k Hin. apply Hs1.
      assert (Hin' : k ∈ k0 :: ks) by (rewrite <- Hperm; exact Hin).
      apply elem_of_cons in Hin' as [->|Hin'].
      - right. simpl. apply lookup_insert_eq.
      - left. exact Hin'. }
    destruct (destroys_decrement c H eq_refl pre 1 ltac:(lia) st1) as (st2 & Hr2 & Hl2 & Hc2 & Hs2).
    + exact Hndpre.
    + lia.
    + intros k Hin. apply Hmem. apply elem_of_app. left. exact Hin.
    + rewrite Hc1. do 2 f_equal. lia.
    + assert (Hlast : slots st2 !! last = Some H).
      { rewrite Hs2.
        - apply Hmem. apply elem_of_app. right. apply list_elem_of_singleton. reflexivity.
        - intros Hin. apply (Hlastpre last Hin). apply list_elem_of_singleton. reflexivity. }
      exists st1, st2.
      eexists. split; [cbn [run]; rewrite Hb; exact Hr1|].
      split; [exact Hr2|].
      split; [rewrite Hl2, Hl1; reflexivity|].
      split.
      * unfold destroy, release. rewrite Hlast. simpl. rewrite Hc2.
        change (wrap32 1) with 1. simpl. reflexivity.
      * simpl. rewrite Hl2, Hl1. reflexivity.
Qed.

Lemma cleanup_once_at_last_destroy_witness :
  exists st1 st2 st3,
    run (OCtorBind 1 (Some 5%nat) 4%nat :: map (fun k => OCopy k 1) [2%nat; 3%nat]) init
      = Some st1 /\
    run (map ODestroy [3%nat; 1%nat]) st1 = Some st2 /\
    log st2 = log init /\
    destroy 2 st2 = Some st3 /\
    log st3 = log init ++ [(4%nat, Some 5%nat)].
Proof.
  apply (cleanup_once_at_last_destroy 1 [2%nat; 3%nat] [3%nat; 1%nat] 2).
  - simpl. lia.
  - apply (bool_decide_unpack _). vm_compute. reflexivity.
  - intros k Hk. simpl. apply lookup_empty.
  - apply (bool_decide_unpack _). vm_compute. reflexivity.
Defined.


(** ** Counting the handles of a cell *)

Lemma refs_insert c (ss : gmap nat handle) k h :
  refs c (<[k := h]> ss) = (refs c (delete k ss) + ind c h)%nat.
Proof.
  unfold refs, ind. destruct (decide (count_ h = Some c)) as [E|E].
  - rewrite map_filter_insert_True by exact E.
    rewrite <- insert_delete_eq, <- map_filter_delete.
    rewrite map_size_insert_None; [lia|].
    rewrite map_filter_delete. apply lookup_delete_eq.
  - rewrite map_filter_insert_False by exact E. lia.
Qed.

Lemma refs_delete c (ss : gmap nat handle) k h :
  ss !! k = Some h -> refs c ss = (refs c (delete k ss) + ind c h)%nat.
Proof.
  intros Hk. rewrite <- (insert_delete_id ss k h) at 1 by exact Hk.
  rewrite refs_insert, delete_delete_eq. reflexivity.
Qed.

Lemma refs_pos c (ss : gmap nat handle) k h :
  ss !! k = Some h -> count_ h = Some c -> (1 <= refs c ss)%nat.
Proof.
  intros Hk Hc. rewrite (refs_delete c ss k h Hk). unfold ind.
  destruct (decide (count_ h = Some c)); [lia|contradiction].
Qed.

Lemma refs_zero c (ss : gmap nat handle) :
  (forall k h, ss !! k = Some h -> count_ h <> Some c) -> refs c ss = 0%nat.
Proof.
  intros Hn. unfold refs. rewrite map_empty_filter_2; [apply map_size_empty|].
  intros k h Hk. simpl. exact (Hn k h Hk).
Qed.

Lemma refs_fresh_slot c (ss : gmap nat handle) k h :
  ss !! k = None -> refs c (<[k := h]> ss) = (refs c ss + ind c h)%nat.
Proof. intros Hk. rewrite refs_insert, delete_id by exact Hk. reflexivity. Qed.

Lemma ind_none c h : count_ h = None -> ind c h = 0%nat.
Proof. intros E. unfold ind. rewrite E. destruct (decide (None = Some c)); [discriminate|reflexivity]. Qed.

Lemma ind_other c c' h : count_ h = Some c -> c' <> c -> ind c' h = 0%nat.
Proof. intros E Hne. unfold ind. rewrite E. destruct (decide (Some c = Some c')); [congruence|reflexivity]. Qed.

Lemma ind_same c h : count_ h = Some c -> ind c h = 1%nat.
Proof. intros E. unfold ind. rewrite E. destruct (decide (Some c = Some c)); [reflexivity|congruence]. Qed.

Lemma refs_le_size c (ss : gmap nat handle) : (refs c ss <= size ss)%nat.
Proof. unfold refs. apply map_size_filter. Qed.

Lemma bounded_of_size (st : St) : Z.of_nat (size (slots st)) <= int_max -> bounded st.
Proof.
  intros Hs c. pose proof (refs_le_size c (slots st)). lia.
Qed.


(** ** The reference-count invariant is preserved by every operation *)

Lemma release_wf (st : St) k h :
  wf (cells st) (slots st) -> slots st !! k = Some h ->
  exists st1, release h st = Some st1 /\
    wf (cells st1) (delete k (slots st)) /\ slots st1 = slots st.
Proof.
  intros [Hv Hr] Hk. unfold release.
  destruct (count_ h) as [c|] eqn:Hc.
  - destruct (Hr k h c Hk Hc) as [v Hcv]. rewrite Hcv. simpl.
    destruct (Hv c v Hcv) as [Ev Bv].
    rewrite (refs_delete c _ k h Hk), (ind_same c h Hc) in Ev.
    destruct (Z.eqb v 1) eqn:E1.
    + apply Z.eqb_eq in E1.
      eexists; split; [reflexivity|]. simpl. split; [split|reflexivity].
      * intros c' v'. rewrite lookup_delete. case_decide; [discriminate|].
        rewrite lookup_insert_ne by auto. intros Hc'.
        destruct (Hv c' v' Hc') as [Ev' Bv']. split; [|exact Bv'].
        rewrite Ev', (refs_delete c' _ k h Hk), (ind_other c c' h Hc) by congruence.
        lia.
      * intros k' h' c' Hk' Hc'. rewrite lookup_delete. case_decide.
        -- subst c'. exfalso. pose proof (refs_pos c _ k' h' Hk' Hc'). lia.
        -- rewrite lookup_insert_ne by auto.
           apply lookup_delete_Some in Hk' as [_ Hk']. eapply Hr; eauto.
    + apply Z.eqb_neq in E1.
      eexists; split; [reflexivity|]. simpl. split; [split|reflexivity].
      * intros c' v'. rewrite lookup_insert. case_decide.
        -- subst c'. intros Hx. inversion Hx.
           rewrite wrap32_id by (unfold int_min, int_max in *; lia). lia.
        -- intros Hc'. destruct (Hv c' v' Hc') as [Ev' Bv']. split; [|exact Bv'].
           rewrite Ev', (refs_delete c' _ k h Hk), (ind_other c c' h Hc) by congruence.
           lia.
      * intros k' h' c' Hk' Hc'. rewrite lookup_insert. case_decide; [eauto|].
        apply lookup_delete_Some in Hk' as [_ Hk']. eapply Hr; eauto.
  - eexists; split; [reflexivity|]. split; [split|reflexivity].
    + intros c' v' Hc'. destruct (Hv c' v' Hc') as [Ev' Bv']. split; [|exact Bv'].
      rewrite Ev', (refs_delete c' _ k h Hk), (ind_none c' h Hc). lia.
    + intros k' h' c' Hk'. apply lookup_delete_Some in Hk' as [_ Hk']. eapply Hr; eauto.
Qed.

Lemma acquire_wf (st : St) (ss : gmap nat handle) j k o :
  wf (cells st) ss -> ss !! j = Some o -> ss !! k = None ->
  (forall c, Z.of_nat (refs c (<[k := o]> ss)) <= int_max) ->
  exists st1, acquire o st = Some st1 /\
    wf (cells st1) (<[k := o]> ss) /\ slots st1 = slots st /\ log st1 = log st.
Proof.
  intros [Hv Hr] Hj Hk Hb. unfold acquire.
  destruct (count_ o) as [c|] eqn:Hc.
  - destruct (Hr j o c Hj Hc) as [v Hcv]. rewrite Hcv. simpl.
    eexists; split; [reflexivity|]. simpl. split; [split|auto].
    + intros c' v'. rewrite refs_fresh_slot by exact Hk. rewrite lookup_insert.
      case_decide.
      * subst c'. intros Hx. inversion Hx.
        pose proof (Hb c) as Hbc. rewrite refs_fresh_slot, (ind_same c o Hc) in Hbc by exact Hk.
        destruct (Hv c v Hcv) as [Ev _].
        rewrite wrap32_id by (unfold int_min, int_max in *; lia).
        rewrite (ind_same c o Hc). lia.
      * intros Hc'. destruct (Hv c' v' Hc') as [Ev' Bv']. split; [|exact Bv'].
        rewrite Ev', (ind_other c c' o Hc) by congruence. lia.
    + intros k' h' c' Hk' Hc'. rewrite lookup_insert. case_decide; [eauto|].
      apply lookup_insert_Some in Hk' as [[_ <-]|[_ Hk']]; [congruence|eapply Hr; eauto].
  - eexists; split; [reflexivity|]. split; [split|auto].
    + intros c' v' Hc'. rewrite refs_fresh_slot by exact Hk.
      destruct (Hv c' v' Hc') as [Ev' Bv']. split; [|exact Bv'].
      rewrite Ev', (ind_none c' o Hc). lia.
    + intros k' h' c' Hk' Hc'.
      apply lookup_insert_Some in Hk' as [[_ <-]|[_ Hk']]; [congruence|eapply Hr; eauto].
Qed.

Lemma alloc_wf cs (ss : gmap nat handle) k c p d :
  wf cs ss -> ss !! k = None -> cs !! c = None ->
  wf (<[c := 1]> cs) (<[k := mkHandle p (Some c) d]> ss).
Proof.
  intros [Hv Hr] Hk Hc. split.
  - intros c' v'. rewrite refs_fresh_slot by exact Hk. rewrite lookup_insert.
    case_decide.
    + subst c'. intros Hx. inversion Hx. split; [|unfold int_max; lia].
      rewrite refs_zero; [rewrite (ind_same c (mkHandle p (Some c) d) eq_refl); lia|].
      intros k' h' Hk' Hc'. destruct (Hr k' h' c Hk' Hc') as [x Hx']. congruence.
    + intros Hc'. destruct (Hv c' v' Hc') as [Ev' Bv']. split; [|exact Bv'].
      rewrite Ev', (ind_other c c' (mkHandle p (Some c) d) eq_refl) by congruence.
      lia.
  - intros k' h' c' Hk' Hc'. rewrite lookup_insert. case_decide; [eauto|].
    apply lookup_insert_Some in Hk' as [[_ <-]|[_ Hk']];
      [simpl in Hc'; congruence|eapply Hr; eauto].
Qed.

Lemma insert_nocount_wf cs (ss : gmap nat handle) k h :
  wf cs ss -> ss !! k = None -> count_ h = None -> wf cs (<[k := h]> ss).
Proof.
  intros [Hv Hr] Hk Hh. split.
  - intros c v Hc. rewrite refs_fresh_slot by exact Hk.
    destruct (Hv c v Hc) as [Ev Bv]. split; [|exact Bv].
    rewrite Ev, (ind_none c h Hh). lia.
  - intros k' h' c' Hk' Hc'.
    apply lookup_insert_Some in Hk' as [[_ <-]|[_ Hk']]; [congruence|eapply Hr; eauto].
Qed.

Lemma swap_wf cs (ss : gmap nat handle) a b ha hb :
  wf cs ss -> ss !! a = Some ha -> ss !! b = Some hb ->
  wf cs (<[a := hb]> (<[b := ha]> ss)).
Proof.
  intros Hwf Ha Hb. destruct (decide (a = b)) as [->|Hne].
  - rewrite Ha in Hb. inversion Hb. subst.
    rewrite insert_insert_eq, insert_id by exact Ha. exact Hwf.
  - destruct Hwf as [Hv Hr]. split.
    + intros c v Hc. destruct (Hv c v Hc) as [Ev Bv]. split; [|exact Bv].
      rewrite refs_insert, delete_insert_ne by auto. rewrite refs_insert.
      rewrite Ev, (refs_delete c ss a ha Ha),
              (refs_delete c (delete a ss) b hb) by (rewrite lookup_delete_ne; auto).
      lia.
    + intros k h c Hk Hc.
      apply lookup_insert_Some in Hk as [[_ <-]|[_ Hk]]; [exact (Hr b hb c Hb Hc)|].
      apply lookup_insert_Some in Hk as [[_ <-]|[_ Hk]];
        [exact (Hr a ha c Ha Hc)|exact (Hr k h c Hk Hc)].
Qed.

Lemma new_cell_fresh (st : St) : cells st !! new_cell st = None.
Proof. unfold new_cell. apply not_elem_of_dom. apply is_fresh. Qed.

Lemma step_wf o (st st' : St) :
  wf (cells st) (slots st) -> step o st = Some st' -> bounded st' ->
  wf (cells st') (slots st').
Proof.
  intros Hwf. destruct o as [k|k p d|k j|k j|k p d|k j|k]; simpl.
  - unfold ctor_empty, fresh_slot. destruct (slots st !! k) eqn:Hk; simpl; [congruence|].
    intros E _; inversion E; subst; simpl.
    apply insert_nocount_wf; auto.
  - unfold ctor_bind, fresh_slot. destruct (slots st !! k) eqn:Hk; simpl; [congruence|].
    intros E _; inversion E; subst; simpl.
    apply alloc_wf; auto. apply new_cell_fresh.
  - unfold ctor_copy, fresh_slot. destruct (slots st !! k) eqn:Hk; simpl; [congruence|].
    destruct (slots st !! j) as [o|] eqn:Hj; simpl; [|congruence].
    destruct (acquire o st) as [st1|] eqn:Ha; simpl; [|congruence].
    intros E Hb; inversion E; subst; simpl. unfold bounded in Hb. simpl in Hb.
    pose proof (acquire_slots o st st1 Ha) as [Hs1 _]. rewrite Hs1 in Hb |- *.
    destruct (acquire_wf st (slots st) j k o Hwf Hj Hk Hb) as (st1' & Ha' & Hw1 & _).
    rewrite Ha in Ha'. inversion Ha'. subst. exact Hw1.
  - unfold assign.
    destruct (slots st !! k) as [h|] eqn:Hk; simpl; [|congruence].
    destruct (slots st !! j) as [o|] eqn:Hj; simpl; [|congruence].
    destruct (Nat.eqb k j) eqn:Ekj; [intros E _; inversion E; subst; exact Hwf|].
    apply Nat.eqb_neq in Ekj.
    destruct (release_wf st k h Hwf Hk) as (st1 & Hr & Hw1 & Hs1).
    rewrite Hr. simpl.
    destruct (acquire o st1) as [st2|] eqn:Ha; simpl; [|congruence].
    intros E Hb; inversion E; subst; simpl. unfold bounded in Hb. simpl in Hb.
    pose proof (acquire_slots o st1 st2 Ha) as [Hs2 _].
    rewrite Hs2, Hs1, <- (insert_delete_eq (slots st) k) in Hb |- *.
    destruct (acquire_wf st1 (delete k (slots st)) j k o Hw1) as (st2' & Ha' & Hw2 & _).
    + rewrite lookup_delete_ne by auto. exact Hj.
    + apply lookup_delete_eq.
    + exact Hb.
    + rewrite Ha in Ha'. inversion Ha'. subst. exact Hw2.
  - unfold reset.
    destruct (slots st !! k) as [h|] eqn:Hk; simpl; [|congruence].
    destruct (release_wf st k h Hwf Hk) as (st1 & Hr & Hw1 & Hs1).
    rewrite Hr. simpl. intros E _; inversion E; subst; simpl.
    rewrite Hs1, <- (insert_delete_eq (slots st) k).
    apply alloc_wf; [exact Hw1|apply lookup_delete_eq|apply new_cell_fresh].
  - unfold swap.
    destruct (slots st !! k) as [h|] eqn:Hk; simpl; [|congruence].
    destruct (slots st !! j) as [o|] eqn:Hj; simpl; [|congruence].
    intros E _; inversion E; subst; simpl.
    eapply swap_wf; eauto.
  - unfold destroy.
    destruct (slots st !! k) as [h|] eqn:Hk; simpl; [|congruence].
    destruct (release_wf st k h Hwf Hk) as (st1 & Hr & Hw1 & Hs1).
    rewrite Hr. simpl. intros E _; inversion E; subst; simpl.
    rewrite Hs1. exact Hw1.
Qed.

Lemma run_wf os : forall st st' : St,
  wf (cells st) (slots st) -> run os st = Some st' -> Forall bounded (trace os st) ->
  wf (cells st') (slots st').
Proof.
  induction os as [|o os IH]; simpl; intros st st' Hwf Hr Hb.
  - inversion Hr. subst. exact Hwf.
  - destruct (step o st) as [st1|] eqn:Hs; simpl in Hr; [|congruence].
    apply Forall_cons in Hb as [Hb1 Hb].
    eapply IH; [eapply step_wf; eauto|exact Hr|exact Hb].
Qed.

Lemma init_wf : wf (cells init) (slots init).
Proof.
  split; simpl.
  - intros c v Hc. rewrite lookup_empty in Hc. discriminate.
  - intros k h c Hk. rewrite lookup_empty in Hk. discriminate.
Qed.

(** Claim C2 (as stated, for every sequence): binding a resource and
    copying it [2^31 - 1] times gives [2^31] live handles in the group; the
    [int] counter has wrapped to [INT_MIN], so [use_count()] is negative. *)
Lemma count_negative_with_2p31_handles :
  exists (ks : list nat) st1,
    Z.of_nat (length ks) = 2 ^ 31 - 1 /\ NoDup (0%nat :: ks) /\
    run (OCtorBind 0 (Some 5%nat) defaultDeleter :: map (fun k => OCopy k 0) ks) init
      = Some st1 /\
    (forall k, k ∈ 0%nat :: ks -> slots st1 !! k = slots st1 !! 0%nat) /\
    use_count 0 st1 = Some int_min /\ int_min < 0.
Proof.
  remember (Z.to_nat (2 ^ 31 - 1)) as n eqn:En.
  assert (Hlen : Z.of_nat (length (seq 1 n)) = 2 ^ 31 - 1).
  { rewrite length_seq, En. apply Z2Nat.id. lia. }
  destruct (bind_then_copies 0 (seq 1 n) (Some 5%nat) defaultDeleter init (nodup_zero_seq n))
    as (st1 & Hr1 & Hl1 & Hc1 & Hs1).
  { intros k _. apply lookup_empty. }
  rewrite Hlen in Hc1.
  exists (seq 1 n), st1.
  split; [exact Hlen|]. split; [apply nodup_zero_seq|].
  split; [exact Hr1|].
  split; [intros k Hk; rewrite (Hs1 k Hk), (Hs1 0%nat ltac:(left)); reflexivity|].
  split; [|unfold int_min; lia].
  unfold use_count. rewrite (Hs1 0%nat ltac:(left)). simpl. rewrite Hc1. reflexivity.
Qed.

(** Claim C2 (amended): from any well-formed state (for instance the
    initial one), after any sequence of handle operations in which no
    counter cell is ever referenced by more than [INT_MAX] live handles,
    every live counter cell holds the number of live handles referencing it,
    which is never negative; and every cell referenced by a live handle is
    live with a positive count. *)
Theorem count_equals_live_handles (os : list op) (st st' : St) :
  wf (cells st) (slots st) ->
  Forall bounded (trace os st) ->
  run os st = Some st' ->
  forall c,
    (forall v, cells st' !! c = Some v -> v = Z.of_nat (refs c (slots st')) /\ 0 <= v) /\
    (forall k h, slots st' !! k = Some h -> count_ h = Some c ->
       exists v, cells st' !! c = Some v /\ v = Z.of_nat (refs c (slots st')) /\ 0 < v).
Proof.
  intros Hwf Hb Hrun c.
  destruct (run_wf os st st' Hwf Hrun Hb) as [Hv Hr]. split.
  - intros v Hc. destruct (Hv c v Hc) as [Ev _]. split; [exact Ev|]. rewrite Ev. lia.
  - intros k h Hk Hc. destruct (Hr k h c Hk Hc) as [v Hcv].
    destruct (Hv c v Hcv) as [Ev _].
    exists v. split; [exact Hcv|]. split; [exact Ev|].
    rewrite Ev. pose proof (refs_pos c _ k h Hk Hc). lia.
Qed.

Lemma count_equals_live_handles_witness :
  exists st',
    run [OCtorBind 1 (Some 5%nat) defaultDeleter; OCopy 2 1; OCtorEmpty 3;
         OAssign 3 1; OReset 1 (Some 10%nat) defaultDeleter; ODestroy 2] init = Some st' /\
    forall c,
      (forall v, cells st' !! c = Some v -> v = Z.of_nat (refs c (slots st')) /\ 0 <= v) /\
      (forall k h, slots st' !! k = Some h -> count_ h = Some c ->
         exists v, cells st' !! c = Some v /\ v = Z.of_nat (refs c (slots st')) /\ 0 < v).
Proof.
  eexists; split; [vm_compute; reflexivity|].
  apply (count_equals_live_handles
           [OCtorBind 1 (Some 5%nat) defaultDeleter; OCopy 2 1; OCtorEmpty 3;
            OAssign 3 1; OReset 1 (Some 10%nat) defaultDeleter; ODestroy 2] init).
  - apply init_wf.
  - eapply Forall_impl; [|intros s; apply bounded_of_size].
    apply (bool_decide_unpack _). vm_compute. reflexivity.
  - vm_compute. reflexivity.
Defined.


(** ** Further properties of [SharedPtr] *)

Lemma new_cell_not_live (st : St) c v : cells st !! c = Some v -> new_cell st <> c.
Proof.
  intros Hc E. pose proof (new_cell_fresh st) as Hf. rewrite E in Hf. congruence.
Qed.

(** [reset] on the only owner of a resource runs its cleanup at once (the
    stored routine on the stored pointer, exactly one call), and the handle
    then holds the new pointer with [use_count() == 1]. *)
Theorem reset_sole_owner_cleans_up (k : nat) (h : handle) (c : loc)
    (p : option res) (d : deleter) (st : St) :
  slots st !! k = Some h -> count_ h = Some c -> cells st !! c = Some 1 ->
  exists st',
    reset k p d st = Some st' /\
    log st' = log st ++ [(deleter_ h, ptr_ h)] /\
    get k st' = Some p /\
    use_count k st' = Some 1.
Proof.
  intros Hk Hc Hv. unfold reset, release. rewrite Hk. simpl. rewrite Hc, Hv. simpl.
  eexists; split; [reflexivity|]. simpl.
  split; [reflexivity|].
  split; [unfold get; simpl; rewrite lookup_insert_eq; reflexivity|].
  unfold use_count. simpl. rewrite lookup_insert_eq. simpl. apply lookup_insert_eq.
Qed.

Lemma reset_sole_owner_cleans_up_witness :
  exists st, run [OCtorBind 1 (Some 5%nat) 3%nat] init = Some st /\
  exists st',
    reset 1 (Some 10%nat) defaultDeleter st = Some st' /\
    log st' = log st ++ [(3%nat, Some 5%nat)] /\
    get 1 st' = Some (Some 10%nat) /\
    use_count 1 st' = Some 1.
Proof.
  eexists; split; [vm_compute; reflexivity|].
  apply (reset_sole_owner_cleans_up 1 (mkHandle (Some 5%nat) (Some 0%nat) 3%nat) 0%nat);
    vm_compute; reflexivity.
Defined.

(** [reset] on a handle that shares its resource with another live handle
    runs no cleanup; the other handles of the group see their count drop by
    one and keep the resource. *)
Theorem reset_shared_no_cleanup (k k' : nat) (h h' : handle) (c : loc)
    (p : option res) (d : deleter) (st : St) :
  wf (cells st) (slots st) ->
  slots st !! k = Some h -> slots st !! k' = Some h' -> k' <> k ->
  count_ h = Some c -> count_ h' = Some c ->
  exists v st',
    use_count k' st = Some v /\ 2 <= v /\
    reset k p d st = Some st' /\
    log st' = log st /\
    use_count k' st' = Some (v - 1) /\
    get k' st' = Some (ptr_ h').
Proof.
  intros [Hv Hr] Hk Hk' Hne Hc Hc'.
  destruct (Hr k h c Hk Hc) as [v Hcv].
  destruct (Hv c v Hcv) as [Ev Bv].
  assert (Hge : 2 <= v).
  { rewrite Ev, (refs_delete c _ k h Hk), (ind_same c h Hc).
    assert (Hd : delete k (slots st) !! k' = Some h') by (rewrite lookup_delete_ne; auto).
    pose proof (refs_pos c _ k' h' Hd Hc'). lia. }
  unfold reset, release. rewrite Hk. simpl. rewrite Hc, Hcv. simpl.
  replace (Z.eqb v 1) with false by (symmetry; apply Z.eqb_neq; lia).
  rewrite (wrap32_id (v - 1)) by (unfold int_min, int_max in *; lia).
  exists v. eexists.
  split; [unfold use_count; rewrite Hk'; simpl; rewrite Hc'; exact Hcv|].
  split; [exact Hge|].
  split; [reflexivity|]. simpl.
  split; [reflexivity|].
  assert (Hnew : new_cell (set_cells (<[c:=v - 1]> (cells st)) st) <> c).
  { apply (new_cell_not_live _ c (v - 1)). simpl. apply lookup_insert_eq. }
  split.
  - unfold use_count. simpl. rewrite lookup_insert_ne by auto. rewrite Hk'. simpl. rewrite Hc'.
    rewrite lookup_insert_ne by auto. apply lookup_insert_eq.
  - unfold get. simpl. rewrite lookup_insert_ne by auto. rewrite Hk'. reflexivity.
Qed.

Lemma reset_shared_no_cleanup_witness :
  exists st, run [OCtorBind 1 (Some 5%nat) defaultDeleter; OCopy 2 1] init = Some st /\
  exists v st',
    use_count 2 st = Some v /\ 2 <= v /\
    reset 1 (Some 10%nat) defaultDeleter st = Some st' /\
    log st' = log st /\
    use_count 2 st' = Some (v - 1) /\
    get 2 st' = Some (Some 5%nat).
Proof.
  eexists; split; [vm_compute; reflexivity|].
  apply (reset_shared_no_cleanup 1 2 (mkHandle (Some 5%nat) (Some 0%nat) defaultDeleter)
           (mkHandle (Some 5%nat) (Some 0%nat) defaultDeleter) 0%nat).
  - eapply (run_wf [OCtorBind 1 (Some 5%nat) defaultDeleter; OCopy 2 1] init);
      [apply init_wf|vm_compute; reflexivity|].
    eapply Forall_impl; [|intros s; apply bounded_of_size].
    apply (bool_decide_unpack _). vm_compute. reflexivity.
  - vm_compute. reflexivity.
  - vm_compute. reflexivity.
  - discriminate.
  - reflexivity.
  - reflexivity.
Defined.

(** Copy construction from a bound handle whose count [v] is below
    [INT_MAX]: both handles give the same [get()] and report the old count
    plus one; no cleanup runs. *)
Theorem copy_ctor_shares (k j : nat) (o : handle) (c : loc) (v : Z) (st : St) :
  slots st !! k = None -> slots st !! j = Some o ->
  count_ o = Some c -> cells st !! c = Some v -> int_min <= v < int_max ->
  exists st',
    ctor_copy k j st = Some st' /\
    get k st' = Some (ptr_ o) /\ get j st' = Some (ptr_ o) /\
    use_count k st' = Some (v + 1) /\ use_count j st' = Some (v + 1) /\
    log st' = log st.
Proof.
  intros Hk Hj Hc Hv Hb. unfold ctor_copy, fresh_slot, acquire. rewrite Hk, Hj. simpl.
  rewrite Hc, Hv. simpl. rewrite wrap32_id by (unfold int_min, int_max in *; lia).
  assert (Hkj : k <> j) by congruence.
  eexists; split; [reflexivity|].
  unfold get, use_count; simpl.
  rewrite lookup_insert_eq, lookup_insert_ne by congruence. rewrite Hj. simpl.
  rewrite Hc. rewrite lookup_insert_eq. auto.
Qed.

Lemma copy_ctor_shares_witness :
  exists st, run [OCtorBind 1 (Some 5%nat) defaultDeleter] init = Some st /\
  exists st',
    ctor_copy 2 1 st = Some st' /\
    get 2 st' = Some (Some 5%nat) /\ get 1 st' = Some (Some 5%nat) /\
    use_count 2 st' = Some (1 + 1) /\ use_count 1 st' = Some (1 + 1) /\
    log st' = log st.
Proof.
  eexists; split; [vm_compute; reflexivity|].
  apply (copy_ctor_shares 2 1 (mkHandle (Some 5%nat) (Some 0%nat) defaultDeleter) 0%nat 1);
    [vm_compute; reflexivity ..|unfold int_min, int_max; lia].
Defined.

(** Copy assignment between two distinct handles of the same group (the
    case the [this != &other] test does not catch) changes no counter
    cell, runs no cleanup, and only overwrites the destination's fields. *)
Theorem assign_same_group_stable (k j : nat) (h o : handle) (c : loc) (st : St) :
  wf (cells st) (slots st) ->
  slots st !! k = Some h -> slots st !! j = Some o -> k <> j ->
  count_ h = Some c -> count_ o = Some c ->
  exists st',
    assign k j st = Some st' /\
    cells st' = cells st /\ log st' = log st /\
    slots st' = <[k := o]> (slots st).
Proof.
  intros [Hv Hr] Hk Hj Hne Hc Ho.
  destruct (Hr k h c Hk Hc) as [v Hcv].
  destruct (Hv c v Hcv) as [Ev Bv].
  assert (Hge : 2 <= v).
  { rewrite Ev, (refs_delete c _ k h Hk), (ind_same c h Hc).
    assert (Hd : delete k (slots st) !! j = Some o) by (rewrite lookup_delete_ne; auto).
    pose proof (refs_pos c _ j o Hd Ho). lia. }
  unfold assign, release, acquire. rewrite Hk, Hj. simpl.
  replace (Nat.eqb k j) with false by (symmetry; apply Nat.eqb_neq; exact Hne).
  rewrite Hc, Hcv. simpl.
  replace (Z.eqb v 1) with false by (symmetry; apply Z.eqb_neq; lia).
  simpl. rewrite Ho, lookup_insert_eq. simpl.
  eexists; split; [reflexivity|]. simpl.
  rewrite insert_insert_eq, wrap32_succ. replace (v - 1 + 1) with v by lia.
  rewrite wrap32_id by (unfold int_min, int_max in *; lia).
  rewrite insert_id by exact Hcv. auto.
Qed.

Lemma assign_same_group_stable_witness :
  exists st, run [OCtorBind 1 (Some 5%nat) defaultDeleter; OCopy 2 1] init = Some st /\
  exists st',
    assign 2 1 st = Some st' /\
    cells st' = cells st /\ log st' = log st /\
    slots st' = <[2%nat := mkHandle (Some 5%nat) (Some 0%nat) defaultDeleter]> (slots st).
Proof.
  eexists; split; [vm_compute; reflexivity|].
  apply (assign_same_group_stable 2 1 (mkHandle (Some 5%nat) (Some 0%nat) defaultDeleter)
           (mkHandle (Some 5%nat) (Some 0%nat) defaultDeleter) 0%nat).
  - eapply (run_wf [OCtorBind 1 (Some 5%nat) defaultDeleter; OCopy 2 1] init);
      [apply init_wf|vm_compute; reflexivity|].
    eapply Forall_impl; [|intros s; apply bounded_of_size].
    apply (bool_decide_unpack _). vm_compute. reflexivity.
  - vm_compute. reflexivity.
  - vm_compute. reflexivity.
  - discriminate.
  - reflexivity.
  - reflexivity.
Defined.


Lemma acquire_defined o (st : St) :
  (forall c, count_ o = Some c -> is_Some (cells st !! c)) ->
  exists st1, acquire o st = Some st1.
Proof.
  intros Hc. unfold acquire. destruct (count_ o) as [c|]; [|eexists; reflexivity].
  destruct (Hc c eq_refl) as [v Hv]. rewrite Hv. eexists; reflexivity.
Qed.

(** In a well-formed state every operation applied to live objects (and
    constructors applied to free storage) is defined: no operation reads or
    writes a freed counter cell. *)
Theorem wf_ops_defined (o : op) (st : St) :
  wf (cells st) (slots st) -> op_pre o st -> exists st', step o st = Some st'.
Proof.
  intros Hwf Hpre.
  destruct o as [k|k p d|k j|k j|k p d|k j|k]; simpl in *.
  - unfold ctor_empty, fresh_slot. rewrite Hpre. eexists; reflexivity.
  - unfold ctor_bind, fresh_slot. rewrite Hpre. eexists; reflexivity.
  - destruct Hpre as [Hk [o Hj]].
    unfold ctor_copy, fresh_slot. rewrite Hk, Hj. simpl.
    destruct (acquire_defined o st) as (st1 & Ha).
    { intros c Hc. exact (proj2 Hwf j o c Hj Hc). }
    rewrite Ha. eexists; reflexivity.
  - destruct Hpre as [[h Hk] [o Hj]].
    unfold assign. rewrite Hk, Hj. simpl.
    destruct (Nat.eqb k j) eqn:Ekj; [eexists; reflexivity|].
    apply Nat.eqb_neq in Ekj.
    destruct (release_wf st k h Hwf Hk) as (st1 & Hr & Hw1 & _).
    rewrite Hr. simpl.
    destruct (acquire_defined o st1) as (st2 & Ha).
    { intros c Hc. apply (proj2 Hw1 j o c); [rewrite lookup_delete_ne by auto; exact Hj|exact Hc]. }
    rewrite Ha. eexists; reflexivity.
  - destruct Hpre as [h Hk]. unfold reset. rewrite Hk. simpl.
    destruct (release_wf st k h Hwf Hk) as (st1 & Hr & _).
    rewrite Hr. eexists; reflexivity.
  - destruct Hpre as [[h Hk] [o Hj]]. unfold swap. rewrite Hk, Hj. eexists; reflexivity.
  - destruct Hpre as [h Hk]. unfold destroy. rewrite Hk. simpl.
    destruct (release_wf st k h Hwf Hk) as (st1 & Hr & _).
    rewrite Hr. eexists; reflexivity.
Qed.

Lemma wf_ops_defined_witness :
  exists st, run [OCtorBind 1 (Some 5%nat) defaultDeleter; OCopy 2 1] init = Some st /\
  exists st', step (ODestroy 1) st = Some st'.
Proof.
  eexists; split; [vm_compute; reflexivity|].
  apply wf_ops_defined.
  - eapply (run_wf [OCtorBind 1 (Some 5%nat) defaultDeleter; OCopy 2 1] init);
      [apply init_wf|vm_compute; reflexivity|].
    eapply Forall_impl; [|intros s; apply bounded_of_size].
    apply (bool_decide_unpack _). vm_compute. reflexivity.
  - simpl. vm_compute. eexists. reflexivity.
Defined.

Lemma release_log h st st1 :
  release h st = Some st1 ->
  log st1 = log st \/ log st1 = log st ++ [(deleter_ h, ptr_ h)].
Proof.
  unfold release. destruct (count_ h) as [c|]; [|intros E; inversion E; auto].
  destruct (cells st !! c) as [v|]; simpl; [|congruence].
  destruct (Z.eqb v 1); intros E; inversion E; simpl; auto.
Qed.

(** Every operation invokes at most one cleanup routine, and that call is
    the routine stored in a handle live before the operation, applied to
    that handle's pointer; constructors, copy construction and [swap]
    invoke none. *)
Theorem step_at_most_one_cleanup (o : op) (st st' : St) :
  step o st = Some st' ->
  log st' = log st \/
  (~ releases_nothing o /\
   exists k h, slots st !! k = Some h /\ log st' = log st ++ [(deleter_ h, ptr_ h)]).
Proof.
  destruct o as [k|k p d|k j|k j|k p d|k j|k]; simpl.
  - unfold ctor_empty, fresh_slot. destruct (slots st !! k); simpl; [congruence|].
    intros E; inversion E; auto.
  - unfold ctor_bind, fresh_slot. destruct (slots st !! k); simpl; [congruence|].
    intros E; inversion E; auto.
  - unfold ctor_copy, fresh_slot. destruct (slots st !! k); simpl; [congruence|].
    destruct (slots st !! j) as [o|]; simpl; [|congruence].
    destruct (acquire o st) as [st1|] eqn:Ha; simpl; [|congruence].
    apply acquire_slots in Ha as [_ Hl].
    intros E; inversion E; subst; simpl. auto.
  - unfold assign.
    destruct (slots st !! k) as [h|] eqn:Hk; simpl; [|congruence].
    destruct (slots st !! j) as [o|]; simpl; [|congruence].
    destruct (Nat.eqb k j); [intros E; inversion E; auto|].
    destruct (release h st) as [st1|] eqn:Hr; simpl; [|congruence].
    destruct (acquire o st1) as [st2|] eqn:Ha; simpl; [|congruence].
    apply acquire_slots in Ha as [_ Hl].
    intros E; inversion E; subst; simpl. rewrite Hl.
    destruct (release_log h st st1 Hr) as [L|L]; [auto|right].
    split; [auto|]. exists k, h. auto.
  - unfold reset.
    destruct (slots st !! k) as [h|] eqn:Hk; simpl; [|congruence].
    destruct (release h st) as [st1|] eqn:Hr; simpl; [|congruence].
    intros E; inversion E; subst; simpl.
    destruct (release_log h st st1 Hr) as [L|L]; [auto|right].
    split; [auto|]. exists k, h. auto.
  - unfold swap.
    destruct (slots st !! k); simpl; [|congruence].
    destruct (slots st !! j); simpl; [|congruence].
    intros E; inversion E; auto.
  - unfold destroy.
    destruct (slots st !! k) as [h|] eqn:Hk; simpl; [|congruence].
    destruct (release h st) as [st1|] eqn:Hr; simpl; [|congruence].
    intros E; inversion E; subst; simpl.
    destruct (release_log h st st1 Hr) as [L|L]; [auto|right].
    split; [auto|]. exists k, h. auto.
Qed.

Lemma step_at_most_one_cleanup_witness :
  exists st st', run [OCtorBind 1 (Some 5%nat) defaultDeleter] init = Some st /\
  step (ODestroy 1) st = Some st' /\
  (log st' = log st \/
   (~ releases_nothing (ODestroy 1) /\
    exists k h, slots st !! k = Some h /\ log st' = log st ++ [(deleter_ h, ptr_ h)])).
Proof.
  do 2 eexists. split; [vm_compute; reflexivity|].
  split; [vm_compute; reflexivity|].
  apply step_at_most_one_cleanup. vm_compute. reflexivity.
Defined.

(** [make_shared]: a handle with [use_count() == 1] on the new object;
    destroying it at once calls [defaultDeleter] on that object, once. *)
Theorem make_shared_then_destroy (k : nat) (p : res) (st : St) :
  slots st !! k = None ->
  exists st1,
    make_shared k p st = Some st1 /\
    use_count k st1 = Some 1 /\ get k st1 = Some (Some p) /\
    exists st2, destroy k st1 = Some st2 /\
      log st2 = log st ++ [(defaultDeleter, Some p)] /\ cells st2 = cells st.
Proof.
  intros Hk. unfold make_shared, ctor_bind, fresh_slot. rewrite Hk. simpl.
  eexists; split; [reflexivity|].
  split; [unfold use_count; simpl; rewrite lookup_insert_eq; simpl; apply lookup_insert_eq|].
  split; [unfold get; simpl; rewrite lookup_insert_eq; reflexivity|].
  unfold destroy, release. simpl. rewrite lookup_insert_eq. simpl.
  rewrite lookup_insert_eq. simpl.
  eexists; split; [reflexivity|]. simpl. split; [reflexivity|].
  rewrite !delete_insert_eq. apply delete_id. apply new_cell_fresh.
Qed.

Lemma make_shared_then_destroy_witness :
  exists st1,
    make_shared 1 42%nat init = Some st1 /\
    use_count 1 st1 = Some 1 /\ get 1 st1 = Some (Some 42%nat) /\
    exists st2, destroy 1 st1 = Some st2 /\
      log st2 = log init ++ [(defaultDeleter, Some 42%nat)] /\ cells st2 = cells init.
Proof. apply make_shared_then_destroy. vm_compute. reflexivity. Defined.

End SharedFacts.

(** * Properties of [UniquePtr] *)
Module UniqueFacts.
Import Unique.

(** The first test block of [main()]: after [p3 = std::move(p2)] into an
    empty [p3], [p2] is empty; [p3.reset()] runs the cleanup once. *)
Example main_move_scenario :
  ((((ctor 1 (Some 9%nat) defaultDeleter uinit ≫= move_ctor 2 1) ≫=
   ctor 3 None defaultDeleter) ≫= move_assign 3 2) ≫= reset 3 None)
  = Some (mkUSt (<[3%nat := mkU None defaultDeleter]>
                 (<[2%nat := mkU None defaultDeleter]>
                  (<[1%nat := mkU None defaultDeleter]> ∅)))
                [(defaultDeleter, Some 9%nat)]).
Proof. vm_compute. reflexivity. Qed.

(** Claim C5 (as stated): after any move, whatever the prior state of the
    target, the source is empty.  Move assignment is [swap(other)], so a
    target that owned a resource hands it to the source. *)
Lemma move_assign_source_not_empty :
  exists st,
    ((ctor 1 (Some 1%nat) defaultDeleter uinit ≫= ctor 2 (Some 2%nat) defaultDeleter) ≫=
     move_assign 1 2) = Some st /\
    uslots st !! 1%nat = Some (mkU (Some 2%nat) defaultDeleter) /\
    uslots st !! 2%nat = Some (mkU (Some 1%nat) defaultDeleter) /\
    to_bool 2 st = Some true.
Proof.
  eexists; split; [vm_compute; reflexivity|].
  split; [vm_compute; reflexivity|]. split; vm_compute; reflexivity.
Qed.

(** Claim C5 (amended): move construction from a live handle into free
    storage leaves the source empty and the target owning what the source
    owned, whatever other handles exist; move assignment between two
    distinct live handles exchanges them, so the target owns what the source
    owned and the source owns what the target owned (it is empty exactly
    when the target was); neither runs a cleanup routine. *)
Theorem move_transfers (j : nat) (hs : uhandle) (st : USt) :
  uslots st !! j = Some hs ->
  (forall k, uslots st !! k = None ->
     exists st1,
       move_ctor k j st = Some st1 /\
       uslots st1 !! k = Some hs /\
       uslots st1 !! j = Some (mkU None (udel hs)) /\
       ulog st1 = ulog st) /\
  (forall t ht, uslots st !! t = Some ht -> t <> j ->
     exists st2,
       move_assign t j st = Some st2 /\
       uslots st2 !! t = Some hs /\
       uslots st2 !! j = Some ht /\
       ulog st2 = ulog st).
Proof.
  intros Hj. split.
  - intros k Hk. unfold move_ctor, fresh_uslot. rewrite Hk, Hj. simpl.
    eexists; split; [reflexivity|]. simpl.
    assert (k <> j) by congruence.
    split; [rewrite lookup_insert_ne by auto; apply lookup_insert_eq|].
    split; [apply lookup_insert_eq|reflexivity].
  - intros t ht Ht Htj. unfold move_assign, swap. rewrite Ht, Hj. simpl.
    eexists; split; [reflexivity|]. simpl.
    split; [apply lookup_insert_eq|].
    split; [rewrite lookup_insert_ne by auto; apply lookup_insert_eq|reflexivity].
Qed.

(** [u1] bound to a resource and the only live handle: [u2 = std::move(u1)]
    is covered. *)
Lemma move_transfers_witness :
  exists st,
    ctor 1 (Some 1%nat) defaultDeleter uinit = Some st /\
  ((forall k, uslots st !! k = None ->
     exists st1,
       move_ctor k 1 st = Some st1 /\
       uslots st1 !! k = Some (mkU (Some 1%nat) defaultDeleter) /\
       uslots st1 !! 1%nat = Some (mkU None defaultDeleter) /\
       ulog st1 = ulog st) /\
   (forall t ht, uslots st !! t = Some ht -> t <> 1%nat ->
     exists st2,
       move_assign t 1 st = Some st2 /\
       uslots st2 !! t = Some (mkU (Some 1%nat) defaultDeleter) /\
       uslots st2 !! 1%nat = Some ht /\
       ulog st2 = ulog st)).
Proof.
  eexists; split; [vm_compute; reflexivity|].
  apply (move_transfers 1 (mkU (Some 1%nat) defaultDeleter)). vm_compute. reflexivity.
Defined.

(** Claim C8: [release()] on a handle owning [p] returns [p], leaves the
    handle empty, invokes no cleanup routine, and the later destruction of
    the handle invokes none either. *)
Theorem release_gives_up_ownership (k : nat) (p : res) (d : deleter) (st : USt) :
  uslots st !! k = Some (mkU (Some p) d) ->
  exists st1,
    release k st = Some (Some p, st1) /\
    uslots st1 !! k = Some (mkU None d) /\
    to_bool k st1 = Some false /\
    ulog st1 = ulog st /\
    exists st2, destroy k st1 = Some st2 /\ ulog st2 = ulog st /\ uslots st2 !! k = None.
Proof.
  intros Hk. unfold release. rewrite Hk. simpl.
  eexists; split; [reflexivity|]. simpl.
  split; [apply lookup_insert_eq|].
  split; [unfold to_bool; simpl; rewrite lookup_insert_eq; reflexivity|].
  split; [reflexivity|].
  unfold destroy, reset. simpl. rewrite lookup_insert_eq. simpl.
  eexists; split; [reflexivity|]. simpl.
  split; [reflexivity|]. apply lookup_delete_eq.
Qed.

Lemma release_gives_up_ownership_witness :
  exists st, ctor 1 (Some 4%nat) 3%nat uinit = Some st /\
  exists st1,
    release 1 st = Some (Some 4%nat, st1) /\
    uslots st1 !! 1%nat = Some (mkU None 3%nat) /\
    to_bool 1 st1 = Some false /\
    ulog st1 = ulog st /\
    exists st2, destroy 1 st1 = Some st2 /\ ulog st2 = ulog st /\ uslots st2 !! 1%nat = None.
Proof.
  eexists; split; [vm_compute; reflexivity|].
  apply release_gives_up_ownership. vm_compute. reflexivity.
Defined.


Lemma uniq_insert (ss : gmap nat uhandle) lg k h :
  uniq (mkUSt ss lg) ->
  (forall q k' h', uptr h = Some q -> k' <> k -> ss !! k' = Some h' -> uptr h' <> Some q) ->
  forall lg', uniq (mkUSt (<[k := h]> ss) lg').
Proof.
  intros Hu Hn lg' k1 k2 h1 h2 q H1 H2 E1 E2. simpl in *.
  rewrite lookup_insert in H1, H2.
  destruct (decide (k = k1)) as [<-|N1]; destruct (decide (k = k2)) as [<-|N2];
    try reflexivity.
  - inversion H1; subst. exfalso. exact (Hn q k2 h2 E1 (not_eq_sym N2) H2 E2).
  - inversion H2; subst. exfalso. exact (Hn q k1 h1 E2 (not_eq_sym N1) H1 E1).
  - exact (Hu k1 k2 h1 h2 q H1 H2 E1 E2).
Qed.

Lemma uniq_delete (ss : gmap nat uhandle) lg k :
  uniq (mkUSt ss lg) -> forall lg', uniq (mkUSt (delete k ss) lg').
Proof.
  intros Hu lg' k1 k2 h1 h2 q H1 H2 E1 E2. simpl in *.
  apply lookup_delete_Some in H1 as [_ H1]. apply lookup_delete_Some in H2 as [_ H2].
  exact (Hu k1 k2 h1 h2 q H1 H2 E1 E2).
Qed.

Lemma uniq_null (ss : gmap nat uhandle) lg k d :
  uniq (mkUSt ss lg) -> forall lg', uniq (mkUSt (<[k := mkU None d]> ss) lg').
Proof. intros Hu. apply uniq_insert with lg; [exact Hu|]. simpl. discriminate. Qed.

Lemma uniq_swap (ss : gmap nat uhandle) lg k j h o :
  uniq (mkUSt ss lg) -> ss !! k = Some h -> ss !! j = Some o ->
  forall lg', uniq (mkUSt (<[k := o]> (<[j := h]> ss)) lg').
Proof.
  intros Hu Hk Hj lg' k1 k2 h1 h2 q H1 H2 E1 E2. simpl in *.
  (* positions [k] and [j] exchange their handles: map every live position
     back to the position it came from *)
  assert (Back : forall x hx, <[k := o]> (<[j := h]> ss) !! x = Some hx ->
            exists y, ss !! y = Some hx /\
              ((y = x /\ x <> k /\ x <> j) \/ (x = k /\ y = j) \/ (x = j /\ y = k /\ k <> j))).
  { intros x hx Hx. rewrite lookup_insert in Hx. destruct (decide (k = x)) as [<-|Nk].
    - inversion Hx; subst. exists j. split; [exact Hj|]. right; left; auto.
    - rewrite lookup_insert in Hx. destruct (decide (j = x)) as [<-|Nj].
      + inversion Hx; subst. exists k. split; [exact Hk|]. right; right; auto.
      + exists x. split; [exact Hx|]. left; auto. }
  destruct (Back k1 h1 H1) as (y1 & Y1 & R1). destruct (Back k2 h2 H2) as (y2 & Y2 & R2).
  pose proof (Hu y1 y2 h1 h2 q Y1 Y2 E1 E2) as Ey. subst y2.
  destruct R1 as [(-> & A1 & B1)|[[-> ->]|(-> & -> & N)]];
    destruct R2 as [(E & A2 & B2)|[[-> E]|(-> & E & N')]]; subst; auto; congruence.
Qed.

(** Exclusive ownership is an invariant: if no two live handles hold the
    same pointer, this stays so after every operation, provided a
    constructor or [reset] is not given a pointer that another live handle
    holds. *)
Theorem ustep_uniq (o : uop) (st st' : USt) :
  uniq st -> binds_unowned o st -> ustep o st = Some st' -> uniq st'.
Proof.
  destruct st as [ss lg]. intros Hu Hb.
  destruct o as [k p d|k j|k j|k j|k|k p|k]; simpl in *.
  - unfold ctor, fresh_uslot. simpl. destruct (ss !! k) eqn:Hk; simpl; [congruence|].
    intros E; inversion E; subst.
    apply uniq_insert with lg; [exact Hu|]. simpl. intros q k' h' Eq. exact (Hb q k' h' Eq).
  - unfold move_ctor, fresh_uslot. simpl.
    destruct (ss !! k) eqn:Hk; simpl; [congruence|].
    destruct (ss !! j) as [o|] eqn:Hj; simpl; [|congruence].
    intros E; inversion E; subst.
    assert (Hkj : k <> j) by congruence.
    rewrite insert_insert_ne by auto.
    apply uniq_insert with lg.
    + apply uniq_null with lg. exact Hu.
    + simpl. intros q k' h' Eq Nk' Hk'. rewrite lookup_insert in Hk'.
      destruct (decide (j = k')) as [<-|Nj].
      * inversion Hk'; subst. simpl. discriminate.
      * intros Eq'. apply Nj. exact (Hu j k' o h' q Hj Hk' Eq Eq').
  - unfold move_assign, swap. simpl.
    destruct (ss !! k) as [h|] eqn:Hk; simpl; [|congruence].
    destruct (ss !! j) as [o|] eqn:Hj; simpl; [|congruence].
    intros E; inversion E; subst. eapply uniq_swap; eauto.
  - unfold swap. simpl.
    destruct (ss !! k) as [h|] eqn:Hk; simpl; [|congruence].
    destruct (ss !! j) as [o|] eqn:Hj; simpl; [|congruence].
    intros E; inversion E; subst. eapply uniq_swap; eauto.
  - unfold release. simpl.
    destruct (ss !! k) as [h|] eqn:Hk; simpl; [|congruence].
    intros E; inversion E; subst. apply uniq_null with lg. exact Hu.
  - unfold reset. simpl.
    destruct (ss !! k) as [h|] eqn:Hk; simpl; [|congruence].
    intros E; inversion E; subst.
    apply uniq_insert with lg; [exact Hu|]. simpl. intros q k' h' Eq. exact (Hb q k' h' Eq).
  - unfold destroy, reset. simpl.
    destruct (ss !! k) as [h|] eqn:Hk; simpl; [|congruence].
    intros E; inversion E; subst. rewrite delete_insert_eq.
    apply uniq_delete with lg. exact Hu.
Qed.

Lemma ustep_uniq_witness :
  exists st st',
    urun [UCtor 1 (Some 7%nat) defaultDeleter; UCtor 2 None defaultDeleter] uinit = Some st /\
    ustep (UMoveAssign 2 1) st = Some st' /\ uniq st'.
Proof.
  do 2 eexists. split; [vm_compute; reflexivity|]. split; [vm_compute; reflexivity|].
  apply (ustep_uniq (UMoveAssign 2 1)
           (mkUSt (<[2%nat := mkU None defaultDeleter]>
                   (<[1%nat := mkU (Some 7%nat) defaultDeleter]> ∅)) [])).
  - intros k1 k2 h1 h2 q H1 H2 E1 E2. simpl in *.
    rewrite lookup_insert in H1, H2.
    destruct (decide (2%nat = k1)); [subst; inversion H1; subst; discriminate|].
    destruct (decide (2%nat = k2)); [subst; inversion H2; subst; discriminate|].
    rewrite lookup_insert in H1, H2.
    destruct (decide (1%nat = k1)); [|rewrite lookup_empty in H1; discriminate].
    destruct (decide (1%nat = k2)); [congruence|rewrite lookup_empty in H2; discriminate].
  - simpl. exact I.
  - vm_compute. reflexivity.
Defined.

(** Self move assignment [u = std::move(u)] is [swap] with itself: the
    state is unchanged (the handle keeps its resource, no cleanup). *)
Theorem self_move_assign_noop (k : nat) (h : uhandle) (st : USt) :
  uslots st !! k = Some h -> move_assign k k st = Some st.
Proof.
  intros Hk. unfold move_assign, swap. rewrite Hk. simpl.
  rewrite insert_insert_eq, insert_id by exact Hk. destruct st; reflexivity.
Qed.

Lemma self_move_assign_noop_witness :
  exists st, ctor 1 (Some 7%nat) defaultDeleter uinit = Some st /\
  move_assign 1 1 st = Some st.
Proof.
  eexists; split; [vm_compute; reflexivity|].
  apply (self_move_assign_noop 1 (mkU (Some 7%nat) defaultDeleter)). vm_compute. reflexivity.
Defined.

Lemma last_default_irrel (l : list nat) (a b : nat) :
  l <> [] -> List.last l a = List.last l b.
Proof.
  induction l as [|x l IH]; [congruence|]. intros _.
  destruct l as [|y l']; [reflexivity|]. simpl in *. apply IH. discriminate.
Qed.

Section MoveChain.
Variable p : res.
Variable d : deleter.

Lemma chain_moves (ks : list nat) :
  forall (cur : nat) (st : USt),
  NoDup ks -> cur ∉ ks ->
  (forall k, k ∈ ks -> uslots st !! k = None) ->
  uslots st !! cur = Some (mkU (Some p) d) ->
  exists st',
    urun (move_chain cur ks) st = Some st' /\
    ulog st' = ulog st /\
    uslots st' !! (List.last ks cur) = Some (mkU (Some p) d) /\
    (forall k, k ∈ cur :: ks -> k <> List.last ks cur -> uslots st' !! k = Some (mkU None d)) /\
    (forall k, k ∉ cur :: ks -> uslots st' !! k = uslots st !! k).
Proof.
  induction ks as [|k ks IH]; intros cur st Hnd Hcur Hfr Hown.
  - exists st. simpl. split; [reflexivity|]. split; [reflexivity|]. split; [exact Hown|].
    split; [|auto].
    intros k Hk Hne. apply elem_of_cons in Hk as [->|Hk]; [contradiction|inversion Hk].
  - apply NoDup_cons in Hnd as [Hkn Hnd].
    assert (Hk : uslots st !! k = None) by (apply Hfr; left).
    assert (Hkc : k <> cur) by (intros ->; apply Hcur; left).
    set (st1 := set_uslots (<[cur := mkU None d]> (<[k := mkU (Some p) d]> (uslots st))) st).
    assert (Hs : ustep (UMoveCtor k cur) st = Some st1).
    { simpl. unfold move_ctor, fresh_uslot. rewrite Hk, Hown. reflexivity. }
    destruct (IH k st1) as (st' & Hr & Hl & Ho & Hn & Hu).
    + exact Hnd.
    + exact Hkn.
    + intros k' Hk'. simpl. rewrite lookup_insert_ne.
      * rewrite lookup_insert_ne; [apply Hfr; right; exact Hk'|].
        intros ->. contradiction.
      * intros ->. apply Hcur. right. exact Hk'.
    + simpl. rewrite lookup_insert_ne by auto. apply lookup_insert_eq.
    + assert (Hlast : List.last (k :: ks) cur = List.last ks k).
      { destruct ks as [|x ks']; [reflexivity|].
        change (List.last (x :: ks') cur = List.last (x :: ks') k).
        apply last_default_irrel. discriminate. }
      exists st'. rewrite Hlast. cbn [move_chain urun]. rewrite Hs. simpl.
      split; [exact Hr|]. split; [rewrite Hl; reflexivity|].
      split; [exact Ho|]. split.
      * intros k' Hk' Hne. apply elem_of_cons in Hk' as [->|Hk'].
        -- rewrite Hu.
           ++ simpl. apply lookup_insert_eq.
           ++ intros Hin. apply elem_of_cons in Hin as [Hin|Hin]; [congruence|apply Hcur; right; exact Hin].
        -- apply Hn; [exact Hk'|exact Hne].
      * intros k' Hk'. rewrite Hu.
        -- simpl. rewrite lookup_insert_ne.
           ++ rewrite lookup_insert_ne; [reflexivity|].
              intros ->. apply Hk'. right. left.
           ++ intros ->. apply Hk'. left.
        -- intros Hin. apply Hk'. right. exact Hin.
Qed.

Lemma destroy_nulls (ds : list nat) :
  forall st : USt,
  NoDup ds -> (forall k, k ∈ ds -> uslots st !! k = Some (mkU None d)) ->
  exists st', urun (map UDestroy ds) st = Some st' /\ ulog st' = ulog st.
Proof.
  induction ds as [|k ds IH]; intros st Hnd Hn.
  - exists st. auto.
  - apply NoDup_cons in Hnd as [Hkn Hnd].
    assert (Hk : uslots st !! k = Some (mkU None d)) by (apply Hn; left).
    destruct (IH (mkUSt (delete k (<[k := mkU None d]> (uslots st))) (ulog st)))
      as (st' & Hr & Hl).
    + exact Hnd.
    + intros k' Hk'. simpl. rewrite lookup_delete_ne by (intros ->; contradiction).
      rewrite lookup_insert_ne by (intros ->; contradiction). apply Hn. right. exact Hk'.
    + exists st'. cbn [map urun]. simpl. unfold destroy, reset. rewrite Hk. simpl.
      split; [exact Hr|exact Hl].
Qed.

Lemma destroy_all_one (o : nat) (ds : list nat) :
  forall st : USt,
  NoDup ds -> o ∈ ds ->
  (forall k, k ∈ ds -> k <> o -> uslots st !! k = Some (mkU None d)) ->
  uslots st !! o = Some (mkU (Some p) d) ->
  exists st', urun (map UDestroy ds) st = Some st' /\ ulog st' = ulog st ++ [(d, Some p)].
Proof.
  induction ds as [|k ds IH]; intros st Hnd Hin Hn Ho.
  - inversion Hin.
  - apply NoDup_cons in Hnd as [Hkn Hnd].
    destruct (decide (k = o)) as [->|Hne].
    + destruct (destroy_nulls ds (mkUSt (delete o (<[o := mkU None d]> (uslots st)))
                                        (ulog st ++ [(d, Some p)]))) as (st' & Hr & Hl).
      * exact Hnd.
      * intros k' Hk'. simpl. rewrite lookup_delete_ne by (intros ->; contradiction).
        rewrite lookup_insert_ne by (intros ->; contradiction).
        apply Hn; [right; exact Hk'|intros ->; contradiction].
      * exists st'. cbn [map urun]. simpl. unfold destroy, reset. rewrite Ho. simpl.
        split; [exact Hr|exact Hl].
    + assert (Hk : uslots st !! k = Some (mkU None d)) by (apply Hn; [left|exact Hne]).
      destruct (IH (mkUSt (delete k (<[k := mkU None d]> (uslots st))) (ulog st)))
        as (st' & Hr & Hl).
      * exact Hnd.
      * apply elem_of_cons in Hin as [->|Hin]; [congruence|exact Hin].
      * intros k' Hk' Hne'. simpl. rewrite lookup_delete_ne by (intros ->; contradiction).
        rewrite lookup_insert_ne by (intros ->; contradiction).
        apply Hn; [right; exact Hk'|exact Hne'].
      * simpl. rewrite lookup_delete_ne by auto. rewrite lookup_insert_ne by auto. exact Ho.
      * exists st'. cbn [map urun]. simpl. unfold destroy, reset. rewrite Hk. simpl.
        split; [exact Hr|exact Hl].
Qed.

End MoveChain.

(** Bind a resource in [k0], move it along new handles [ks]
    ([u_{i+1} = std::move(u_i)]), then destroy all of them in any order:
    the cleanup runs exactly once, with the routine given at construction. *)
Theorem move_chain_single_cleanup (k0 : nat) (ks ds : list nat) (p : res) (d : deleter)
    (st : USt) :
  NoDup (k0 :: ks) ->
  (forall k, k ∈ k0 :: ks -> uslots st !! k = None) ->
  Permutation ds (k0 :: ks) ->
  exists st1 st2,
    urun (UCtor k0 (Some p) d :: move_chain k0 ks) st = Some st1 /\
    urun (map UDestroy ds) st1 = Some st2 /\
    ulog st2 = ulog st ++ [(d, Some p)].
Proof.
  intros Hnd Hfr Hperm.
  pose proof Hnd as Hnd'. apply NoDup_cons in Hnd' as [Hk0 Hndks].
  assert (Hk0f : uslots st !! k0 = None) by (apply Hfr; left).
  set (stb := set_uslots (<[k0 := mkU (Some p) d]> (uslots st)) st).
  assert (Hb : ustep (UCtor k0 (Some p) d) st = Some stb).
  { simpl. unfold ctor, fresh_uslot. rewrite Hk0f. reflexivity. }
  destruct (chain_moves p d ks k0 stb) as (st1 & Hr1 & Hl1 & Ho1 & Hn1 & _).
  - exact Hndks.
  - exact Hk0.
  - intros k Hk. simpl. rewrite lookup_insert_ne.
    + apply Hfr. right. exact Hk.
    + intros ->. contradiction.
  - simpl. apply lookup_insert_eq.
  - assert (Hin : forall k, k ∈ ds <-> k ∈ k0 :: ks) by (intros k; rewrite Hperm; reflexivity).
    destruct (destroy_all_one p d (List.last ks k0) ds st1) as (st2 & Hr2 & Hl2).
    + rewrite Hperm. exact Hnd.
    + apply Hin. destruct ks as [|x ks'] eqn:Eks; [left|].
      right. rewrite <- Eks. clear -Eks. subst ks.
      revert x. induction ks' as [|y r IH]; intros x; [left|].
      change (List.last (y :: r) k0 ∈ x :: y :: r). right. apply IH.
    + intros k Hk Hne. apply Hn1; [apply Hin; exact Hk|exact Hne].
    + exact Ho1.
    + exists st1, st2. split; [cbn [urun]; rewrite Hb; exact Hr1|].
      split; [exact Hr2|]. rewrite Hl2, Hl1. reflexivity.
Qed.

Lemma move_chain_single_cleanup_witness :
  exists st1 st2,
    urun (UCtor 1 (Some 9%nat) defaultDeleter :: move_chain 1 [2%nat; 3%nat]) uinit = Some st1 /\
    urun (map UDestroy [2%nat; 1%nat; 3%nat]) st1 = Some st2 /\
    ulog st2 = ulog uinit ++ [(defaultDeleter, Some 9%nat)].
Proof.
  apply move_chain_single_cleanup.
  - apply (bool_decide_unpack _). vm_compute. reflexivity.
  - intros k _. simpl. apply lookup_empty.
  - apply (bool_decide_unpack _). vm_compute. reflexivity.
Defined.

(** [u.reset(u.get())]: [reset] calls the cleanup on the current pointer
    and then stores that same pointer again, so the later destruction of
    [u] calls the cleanup on it a second time. *)
Theorem reset_to_own_pointer_cleans_twice (k : nat) (q : res) (d : deleter) (st : USt) :
  uslots st !! k = Some (mkU (Some q) d) ->
  exists st1 st2,
    get k st = Some (Some q) /\
    reset k (Some q) st = Some st1 /\
    get k st1 = Some (Some q) /\
    ulog st1 = ulog st ++ [(d, Some q)] /\
    destroy k st1 = Some st2 /\
    ulog st2 = ulog st ++ [(d, Some q); (d, Some q)].
Proof.
  intros Hk. unfold get, destroy, reset. rewrite Hk. simpl.
  do 2 eexists. split; [reflexivity|]. split; [reflexivity|].
  simpl. rewrite lookup_insert_eq. simpl.
  split; [reflexivity|]. split; [reflexivity|]. split; [reflexivity|].
  simpl. rewrite <- app_assoc. reflexivity.
Qed.

Lemma reset_to_own_pointer_cleans_twice_witness :
  exists st, make_unique 1 8%nat uinit = Some st /\
  exists st1 st2,
    get 1 st = Some (Some 8%nat) /\
    reset 1 (Some 8%nat) st = Some st1 /\
    get 1 st1 = Some (Some 8%nat) /\
    ulog st1 = ulog st ++ [(defaultDeleter, Some 8%nat)] /\
    destroy 1 st1 = Some st2 /\
    ulog st2 = ulog st ++ [(defaultDeleter, Some 8%nat); (defaultDeleter, Some 8%nat)].
Proof.
  eexists; split; [vm_compute; reflexivity|].
  apply reset_to_own_pointer_cleans_twice. vm_compute. reflexivity.
Defined.
End UniqueFacts.

(** * Properties of [UniquePtr<T[], Deleter>] *)
Module UniqueArrayFacts.
Import Unique UniqueArray.

(** Reading back: after [p[i] = v], [p[i]] is [v] and every other index of
    the block reads as before. *)
Theorem index_set_get (k i : nat) (v : Z) (st st' : ASt) :
  index_set k i v st = Some st' ->
  index_get k i st' = Some v /\
  (forall j, j <> i -> index_get k j st' = index_get k j st).
Proof.
  unfold index_set, index_get.
  destruct (aslots st !! k) as [h|] eqn:Hk; simpl; [|discriminate].
  destruct (uptr h) as [q|] eqn:Hq; simpl; [|discriminate].
  destruct (amem st !! q) as [blk|] eqn:Hb; simpl; [|discriminate].
  destruct (Nat.ltb i (length blk)) eqn:E; [|discriminate].
  apply Nat.ltb_lt in E. intros R. inversion R; subst st'; clear R. simpl.
  rewrite Hk. simpl. rewrite Hq. simpl. rewrite lookup_insert_eq. simpl.
  split.
  - apply list_lookup_insert_eq. exact E.
  - intros j Hj. apply list_lookup_insert_ne. auto.
Qed.

Lemma index_set_get_witness :
  exists st st',
    ctor 1 (Some 4%nat) defaultDeleter (mkASt ∅ {[4%nat := [1; 2; 3]]} []) = Some st /\
    index_set 1 2 30 st = Some st' /\
    (index_get 1 2 st' = Some 30 /\
     (forall j, j <> 2%nat -> index_get 1 j st' = index_get 1 j st)).
Proof.
  do 2 eexists. split; [vm_compute; reflexivity|]. split; [vm_compute; reflexivity|].
  apply index_set_get. vm_compute. reflexivity.
Defined.

(** [p.reset()] on a handle owning an array with the default deleter calls
    [delete[]] once: one cleanup is logged, the block is freed, the handle
    converts to false and no index can be read through it any more. *)
Theorem reset_frees_block (k : nat) (q : res) (st st' : ASt) :
  aslots st !! k = Some (mkU (Some q) defaultDeleter) ->
  reset k None st = Some st' ->
  alog st' = alog st ++ [(defaultDeleter, Some q)] /\
  amem st' !! q = None /\
  to_bool k st' = Some false /\
  (forall i, index_get k i st' = None).
Proof.
  intros Hk. unfold reset. rewrite Hk. simpl. intros R. inversion R; subst st'; clear R.
  simpl. split; [reflexivity|]. split; [apply lookup_delete_eq|].
  unfold to_bool, index_get. simpl. rewrite lookup_insert_eq. simpl.
  split; reflexivity.
Qed.

Lemma reset_frees_block_witness :
  exists st st',
    ctor 1 (Some 4%nat) defaultDeleter (mkASt ∅ {[4%nat := [1; 2; 3]]} []) = Some st /\
    reset 1 None st = Some st' /\
    (alog st' = alog st ++ [(defaultDeleter, Some 4%nat)] /\
     amem st' !! 4%nat = None /\
     to_bool 1 st' = Some false /\
     (forall i, index_get 1 i st' = None)).
Proof.
  do 2 eexists. split; [vm_compute; reflexivity|]. split; [vm_compute; reflexivity|].
  apply (reset_frees_block 1 4%nat); vm_compute; reflexivity.
Defined.

(** [a.swap(b)] exchanges the arrays the two handles index: afterwards
    [a[i]] reads what [b[i]] read and conversely, and no cleanup is run. *)
Theorem swap_exchanges_arrays (k j : nat) (st st' : ASt) :
  swap k j st = Some st' ->
  alog st' = alog st /\
  forall i, index_get k i st' = index_get j i st /\ index_get j i st' = index_get k i st.
Proof.
  unfold swap.
  destruct (aslots st !! k) as [h|] eqn:Hk; simpl; [|discriminate].
  destruct (aslots st !! j) as [o|] eqn:Hj; simpl; [|discriminate].
  intros R. inversion R; subst st'; clear R. split; [reflexivity|]. intros i.
  unfold index_get. simpl. rewrite lookup_insert_eq, Hj. split; [reflexivity|].
  destruct (decide (j = k)) as [->|Hne].
  - rewrite lookup_insert_eq, Hj. reflexivity.
  - rewrite lookup_insert_ne by auto. rewrite lookup_insert_eq, Hk. reflexivity.
Qed.

Lemma swap_exchanges_arrays_witness :
  exists st st',
    (ctor 1 (Some 4%nat) defaultDeleter (mkASt ∅ {[4%nat := [1; 2]; 5%nat := [7]]} [])
       ≫= ctor 2 (Some 5%nat) defaultDeleter) = Some st /\
    swap 1 2 st = Some st' /\
    (alog st' = alog st /\
     forall i, index_get 1 i st' = index_get 2 i st /\ index_get 2 i st' = index_get 1 i st).
Proof.
  do 2 eexists. split; [vm_compute; reflexivity|]. split; [vm_compute; reflexivity|].
  apply swap_exchanges_arrays. vm_compute. reflexivity.
Defined.

End UniqueArrayFacts.
